(** * SABR2019: the opener simulation ([sabr_simulation.py])

    A shallow embedding of the plate-appearance outcome model
    ([sim_plate_app]), of the per-game simulator ([sim_game]) and of the
    batch runner ([simulation]), with the properties the specification
    states about them.

    Conventions of the embedding.
    - Python floats are read as real numbers ([R]): [+], [-], [*], [/] are
      the exact operations, [math.log] is [ln] on its domain and raises
      elsewhere, and [b ** y] for a positive base [b] is [Rpower b y].
      Rounding, overflow and NaN are outside the model.
    - Python ints that only count ([outs], [total_plate_apps], ...) are
      [nat].
    - Exceptions are the [Raise] results of a small error monad; a loop
      that has not finished within the fuel it was given is [OutOfFuel].
    - The module-level random generator is a stream [rand : nat -> R] of
      the successive values of [random.random()], together with the number
      of values consumed so far. *)

From Stdlib Require Import Reals Lra Lia List Arith Bool ZArith.
From Stdlib Require Import Permutation.
Import ListNotations.

#[local] Open Scope R_scope.

(** ** The Python runtime the program relies on *)

Module Py.

Inductive exn : Type := ValueError | IndexError | KeyError.

Inductive result (A : Type) : Type :=
| Ok (a : A)
| Raise (e : exn)
| OutOfFuel.

Arguments Ok {A} a.
Arguments Raise {A} e.
Arguments OutOfFuel {A}.

Definition bind {A B : Type} (m : result A) (k : A -> result B) : result B :=
  match m with
  | Ok a => k a
  | Raise e => Raise e
  | OutOfFuel => OutOfFuel
  end.

Definition fmap {A B : Type} (f : A -> B) (m : result A) : result B :=
  bind m (fun a => Ok (f a)).

(** [math.log x]: the natural logarithm, [ValueError] outside [x > 0]. *)
Definition math_log (x : R) : result R :=
  if Rlt_dec 0 x then Ok (ln x) else Raise ValueError.

(** [itertools.accumulate(ws)]: the running sums, the first one being the
    first element itself. *)
Fixpoint accumulate_from (acc : R) (ws : list R) : list R :=
  match ws with
  | [] => []
  | w :: ws' => (acc + w) :: accumulate_from (acc + w) ws'
  end.

Definition accumulate (ws : list R) : list R :=
  match ws with
  | [] => []
  | w :: ws' => w :: accumulate_from w ws'
  end.

(** [bisect.bisect_right(a, x, lo, hi)]:
<<
    while lo < hi:
        mid = (lo + hi) // 2
        if x < a[mid]: hi = mid
        else: lo = mid + 1
    return lo
>>
    Every iteration shrinks [hi - lo], so [hi - lo] iterations are
    enough ([bisect_loop_enough] below). *)
Fixpoint bisect_loop (fuel : nat) (a : list R) (x : R) (lo hi : nat) : nat :=
  match fuel with
  | O => lo
  | S fuel' =>
      if (lo <? hi)%nat then
        let mid := ((lo + hi) / 2)%nat in
        if Rlt_dec x (nth mid a 0) then bisect_loop fuel' a x lo mid
        else bisect_loop fuel' a x (mid + 1)%nat hi
      else lo
  end.

Definition bisect (a : list R) (x : R) (lo hi : nat) : nat :=
  bisect_loop (hi - lo) a x lo hi.

(** [random.choices(population, weights, k=1)[0]], where [u] is the value
    [random.random()] returns:
<<
    n = len(population)
    cum_weights = list(accumulate(weights))
    if len(cum_weights) != n: raise ValueError
    total = cum_weights[-1] + 0.0
    if total <= 0.0: raise ValueError
    hi = n - 1
    return [population[bisect(cum_weights, random() * total, 0, hi)]]
>> *)
Definition choices {A : Type} (population : list A) (weights : list R)
    (u : R) : result A :=
  let n := length population in
  let cum_weights := accumulate weights in
  if negb (length cum_weights =? n)%nat then Raise ValueError
  else
    match rev cum_weights with
    | [] => Raise IndexError
    | total :: _ =>
        if Rle_dec total 0 then Raise ValueError
        else
          match nth_error population (bisect cum_weights (u * total) 0 (n - 1)) with
          | Some x => Ok x
          | None => Raise IndexError
          end
    end.

End Py.

Import Py.

Notation "x <- m ;; k" := (bind m (fun x => k))
  (at level 61, m at next level, right associativity).
Notation "' pat <- m ;; k" := (bind m (fun x => match x with pat => k end))
  (at level 61, pat pattern, m at next level, right associativity).

(** ** Data model *)

(** The nine event categories, in the order of the keys of the
    [probabilities] dictionary. *)
Inductive Outcome : Type :=
| o_k | o_bb | o_1b | o_2b | o_3b | o_hr | o_hbp | o_e | o_oip.

Definition Outcome_eqb (a b : Outcome) : bool :=
  match a, b with
  | o_k, o_k | o_bb, o_bb | o_1b, o_1b | o_2b, o_2b | o_3b, o_3b
  | o_hr, o_hr | o_hbp, o_hbp | o_e, o_e | o_oip, o_oip => true
  | _, _ => false
  end.

(** A player's rate profile: the fields [sim_plate_app] reads from the
    dictionary of a roster row. *)
Record Profile : Type := mkProfile {
  k_pct : R;
  bb_pct : R;
  single_pct : R;
  double_pct : R;
  triple_pct : R;
  hr_pct : R;
  hbp_pct : R
}.

Definition LINEAR_WEIGHTS (o : Outcome) : R :=
  match o with
  | o_k => -0.26
  | o_bb => 0.29
  | o_1b => 0.44
  | o_2b => 0.74
  | o_3b => 1.01
  | o_hr => 1.39
  | o_hbp => 0.31
  | o_e => -0.26
  | o_oip => -0.26
  end.

(** ** [sim_plate_app] *)

(** Lines 21-36: the derived probabilities (the [probabilities] dictionary,
    keys in insertion order) and [exp_runs_created]. *)
Definition plate_app_locals (hitter pitcher : Profile)
    : result (list (Outcome * R) * R) :=
  lh <- math_log (k_pct hitter) ;; lp <- math_log (k_pct pitcher) ;;
  let k_pct' := Rpower 2.71828 (0.9427 * lh + 0.9254 * lp + 1.5268) in
  lh <- math_log (bb_pct hitter) ;; lp <- math_log (bb_pct pitcher) ;;
  let bb_pct' := Rpower 2.71828 (0.906 * lh + 0.8644 * lp + 1.9975) in
  lh <- math_log (single_pct hitter) ;; lp <- math_log (single_pct pitcher) ;;
  let single_pct' := Rpower 2.71828 (1.01 * lh + 1.017 * lp + 1.943) in
  let double_pct' :=
    0.9206 * double_pct hitter + 0.95779 * double_pct pitcher - 0.03968 in
  lh <- math_log (triple_pct hitter) ;; lp <- math_log (triple_pct pitcher) ;;
  let triple_pct' := Rpower 2.71828 (0.8435 * lh + 0.8698 * lp + 3.8809) in
  lh <- math_log (hr_pct hitter) ;; lp <- math_log (hr_pct pitcher) ;;
  let hr_pct' := Rpower 2.71828 (0.9576 * lh + 0.9268 * lp + 3.2129) in
  lh <- math_log (hbp_pct hitter) ;; lp <- math_log (hbp_pct pitcher) ;;
  let hbp_pct' := Rpower 2.71828 (0.8761 * lh + 0.7623 * lp + 2.995) in
  let e_pct := (1 - (k_pct' + bb_pct' + hbp_pct')) * 0.016 in
  let oip_pct :=
    1 - (k_pct' + bb_pct' + single_pct' + double_pct' + triple_pct'
         + hr_pct' + hbp_pct' + e_pct) in
  let exp_runs_created :=
    LINEAR_WEIGHTS o_bb * bb_pct' + LINEAR_WEIGHTS o_1b * single_pct'
    + LINEAR_WEIGHTS o_2b * double_pct' + LINEAR_WEIGHTS o_3b * triple_pct'
    + LINEAR_WEIGHTS o_hr * hr_pct' + LINEAR_WEIGHTS o_hbp * hbp_pct'
    + LINEAR_WEIGHTS o_k * k_pct' + LINEAR_WEIGHTS o_e * e_pct
    + LINEAR_WEIGHTS o_oip * oip_pct in
  let probabilities :=
    [(o_k, k_pct'); (o_bb, bb_pct'); (o_1b, single_pct'); (o_2b, double_pct');
     (o_3b, triple_pct'); (o_hr, hr_pct'); (o_hbp, hbp_pct');
     (o_e, e_pct); (o_oip, oip_pct)] in
  Ok (probabilities, exp_runs_created).

(** Lines 37-40: the weighted draw; [u] is the value of [random.random()]
    consumed by [random.choices]. *)
Definition sim_plate_app (hitter pitcher : Profile) (u : R)
    : result (Outcome * R) :=
  '(probabilities, exp_runs_created) <- plate_app_locals hitter pitcher ;;
  simulated_outcome <-
    choices (map fst probabilities) (map snd probabilities) u ;;
  Ok (simulated_outcome, exp_runs_created).

(** ** Data frames *)

(** A roster row: the [order] column and the rate columns (what
    [.to_dict()] hands to [sim_plate_app]). A roster data frame is the list
    of its rows, labelled [0, 1, ...] after [reset_index]. *)
Record Row : Type := mkRow {
  order : Z;
  to_dict : Profile
}.

(** [df.iloc[i]]: positional access, [IndexError] out of range. *)
Definition iloc (df : list Row) (i : nat) : result Row :=
  match nth_error df i with
  | Some r => Ok r
  | None => Raise IndexError
  end.

(** [df.loc[l]]: access by row label, [KeyError] when the label is absent. *)
Definition loc (df : list Row) (l : nat) : result Row :=
  match nth_error df l with
  | Some r => Ok r
  | None => Raise KeyError
  end.

(** [df.sort_values(by=['order']).reset_index(drop=True)]: the rows by
    increasing [order] (rows with equal keys keep their relative order). *)
Fixpoint insert_by_order (r : Row) (df : list Row) : list Row :=
  match df with
  | [] => [r]
  | r' :: df' =>
      if (order r <=? order r')%Z then r :: r' :: df'
      else r' :: insert_by_order r df'
  end.

Definition sort_values (df : list Row) : list Row :=
  fold_right insert_by_order [] df.

(** A 9x9 numeric data frame with row labels [0..8] (inning - 1) and column
    labels [1..9] (batting slot): the cell at a row label and a column
    label. *)
Definition Grid : Type := nat -> nat -> R.

(** [pd.DataFrame({k: [0]*9 for k in range(1,10)})]. *)
Definition zeros : Grid := fun _ _ => 0.

(** [df.at[row, col] = v]. *)
Definition at_set (df : Grid) (row col : nat) (v : R) : Grid :=
  fun r c => if ((r =? row) && (c =? col))%nat then v else df r c.

(** [df.loc[row, col] += v]. *)
Definition loc_add (df : Grid) (row col : nat) (v : R) : Grid :=
  at_set df row col (df row col + v).

(** [a.add(b)], [a.div(n)]: cell by cell. *)
Definition grid_add (a b : Grid) : Grid := fun r c => a r c + b r c.
Definition grid_div (a : Grid) (n : R) : Grid := fun r c => a r c / n.

(** [sum f lo n] is [f lo + f (lo+1) + ... + f (lo+n-1)]. *)
Fixpoint sum_from (f : nat -> R) (lo n : nat) : R :=
  match n with
  | O => 0
  | S n' => f lo + sum_from f (S lo) n'
  end.

(** [df.sum()]: the total of each column (over the row labels [0..8]);
    [df.sum().sum()]: the total of these over the column labels [1..9]. *)
Definition column_sum (df : Grid) (c : nat) : R :=
  sum_from (fun r => df r c) 0 9.
Definition grid_sum (df : Grid) : R :=
  sum_from (column_sum df) 1 9.

(** ** [sim_game] *)

Definition is_out (simulated_outcome : Outcome) : bool :=
  match simulated_outcome with
  | o_k | o_oip => true
  | _ => false
  end.

(** The local variables of [sim_game], and [rng], the number of values the
    random generator has handed out. *)
Record GameState : Type := mkState {
  sim_rc_per_hitter_per_inning : Grid;
  sim_pa_per_hitter_per_inning : Grid;
  current_pitcher : nat;
  position_in_order : nat;
  outs : nat;
  total_plate_apps : nat;
  outs_at_pitching_change : nat;
  rng : nat
}.

(** Lines 56-68. *)
Definition initial_state (using_opener : bool) (rng0 : nat) : GameState :=
  {| sim_rc_per_hitter_per_inning := zeros;
     sim_pa_per_hitter_per_inning := zeros;
     current_pitcher := if using_opener then 1%nat else 2%nat;
     position_in_order := 0;
     outs := 0;
     total_plate_apps := 0;
     outs_at_pitching_change := 0;
     rng := rng0 |}.

(** Lines 80-94: the pitching change; returns [current_pitcher] and
    [outs_at_pitching_change]. *)
Definition change_pitchers (using_opener : bool)
    (outs total_plate_apps current_pitcher outs_at_pitching_change : nat)
    : nat * nat :=
  if using_opener then
    let current_pitcher :=
      if ((outs =? 3) && (current_pitcher =? 1))%nat then 2%nat
      else current_pitcher in
    let current_pitcher :=
      if ((27 <? total_plate_apps) && (current_pitcher =? 2))%nat then 3%nat
      else current_pitcher in
    (current_pitcher, outs_at_pitching_change)
  else
    let '(current_pitcher, outs_at_pitching_change) :=
      if ((24 <? total_plate_apps) && (current_pitcher =? 2))%nat
      then (1%nat, outs)
      else (current_pitcher, outs_at_pitching_change) in
    let current_pitcher :=
      if ((outs =? outs_at_pitching_change + 3) && (current_pitcher =? 1))%nat
      then 3%nat
      else current_pitcher in
    (current_pitcher, outs_at_pitching_change).

Section Simulator.

(** The values [random.random()] returns, in the order of the calls. *)
Variable rand : nat -> R.

Variables pitchers_df hitters_df : list Row.
Variable using_opener : bool.

(** Lines 70-105: one iteration of the [while] loop. *)
Definition loop_body (s : GameState) : result GameState :=
  let total_plate_apps := (total_plate_apps s + 1)%nat in
  let position_in_order := (position_in_order s mod 9 + 1)%nat in
  let inning := (outs s / 3 + 1)%nat in
  let sim_pa :=
    at_set (sim_pa_per_hitter_per_inning s) (inning - 1) position_in_order 1 in
  let '(current_pitcher, outs_at_pitching_change) :=
    change_pitchers using_opener (outs s) total_plate_apps
      (current_pitcher s) (outs_at_pitching_change s) in
  hitter <- iloc hitters_df (position_in_order - 1) ;;
  pitcher <- loc pitchers_df (current_pitcher - 1) ;;
  '(simulated_outcome, exp_runs_created) <-
    sim_plate_app (to_dict hitter) (to_dict pitcher) (rand (rng s)) ;;
  let outs' :=
    if is_out simulated_outcome then (outs s + 1)%nat else outs s in
  let sim_rc :=
    loc_add (sim_rc_per_hitter_per_inning s) (inning - 1) position_in_order
      exp_runs_created in
  Ok {| sim_rc_per_hitter_per_inning := sim_rc;
        sim_pa_per_hitter_per_inning := sim_pa;
        current_pitcher := current_pitcher;
        position_in_order := position_in_order;
        outs := outs';
        total_plate_apps := total_plate_apps;
        outs_at_pitching_change := outs_at_pitching_change;
        rng := S (rng s) |}.

(** Line 69: [while outs < 27], at most [fuel] iterations. *)
Fixpoint while_loop (fuel : nat) (s : GameState) : result GameState :=
  if (outs s <? 27)%nat then
    match fuel with
    | O => OutOfFuel
    | S fuel' => s' <- loop_body s ;; while_loop fuel' s'
    end
  else Ok s.

(** [sim_game]: the two grids, and the position reached in the random
    stream. *)
Definition sim_game (fuel : nat) (rng0 : nat) : result (Grid * Grid * nat) :=
  s <- while_loop fuel (initial_state using_opener rng0) ;;
  Ok (sim_rc_per_hitter_per_inning s, sim_pa_per_hitter_per_inning s, rng s).

(** The state of a game once [t] plate appearances have been played:
    [t] iterations of the loop, [None] when the game is over or has raised
    before. *)
Fixpoint after_pas (rng0 : nat) (t : nat) : option GameState :=
  match t with
  | O => Some (initial_state using_opener rng0)
  | S t' =>
      match after_pas rng0 t' with
      | Some s =>
          if (outs s <? 27)%nat then
            match loop_body s with
            | Ok s' => Some s'
            | _ => None
            end
          else None
      | None => None
      end
  end.

(** ** [simulation] *)

(** Lines 129-132: the loop over the games, with the running sums. *)
Fixpoint games_loop (fuel : nat) (n : nat) (sum_rc sum_pa : Grid) (rng0 : nat)
    : result (Grid * Grid * nat) :=
  match n with
  | O => Ok (sum_rc, sum_pa, rng0)
  | S n' =>
      '(game_sim_rc_df, game_sim_pa_df, rng1) <- sim_game fuel rng0 ;;
      games_loop fuel n' (grid_add sum_rc game_sim_rc_df)
        (grid_add sum_pa game_sim_pa_df) rng1
  end.

(** The grids of the successive games, one after the other on the random
    stream. *)
Fixpoint play_games (fuel : nat) (n : nat) (rng0 : nat)
    : result (list (Grid * Grid) * nat) :=
  match n with
  | O => Ok ([], rng0)
  | S n' =>
      '(rc, pa, rng1) <- sim_game fuel rng0 ;;
      '(gs, rng2) <- play_games fuel n' rng1 ;;
      Ok ((rc, pa) :: gs, rng2)
  end.

End Simulator.

(** Lines 122-135: the local data frames [sim_rc_df] and [sim_pa_df] of
    [simulation]. *)
Definition simulation_locals (rand : nat -> R) (fuel : nat)
    (pitchers_df hitters_df : list Row) (using_opener : bool)
    (sample_size : nat) (rng0 : nat) : result (Grid * Grid * nat) :=
  let pitchers_df := sort_values pitchers_df in
  let hitters_df := sort_values hitters_df in
  '(sum_rc, sum_pa, rng1) <-
    games_loop rand pitchers_df hitters_df using_opener fuel sample_size
      zeros zeros rng0 ;;
  let sim_rc_df := grid_div sum_rc (INR sample_size) in
  let sim_pa_df := grid_div sum_pa (INR sample_size) in
  Ok (sim_rc_df, sim_pa_df, rng1).

(** Line 139: what [simulation] returns (and the position reached in the
    random stream, the only other thing a caller can observe). *)
Definition simulation (rand : nat -> R) (fuel : nat)
    (pitchers_df hitters_df : list Row) (using_opener : bool)
    (sample_size : nat) (rng0 : nat) : result (R * nat) :=
  '(sim_rc_df, sim_pa_df, rng1) <-
    simulation_locals rand fuel pitchers_df hitters_df using_opener
      sample_size rng0 ;;
  Ok (grid_sum sim_rc_df, rng1).

(** ** Vocabulary of the specification *)

(** A valid profile: every rate field is strictly positive. *)
Definition positive_rates (p : Profile) : Prop :=
  0 < k_pct p /\ 0 < bb_pct p /\ 0 < single_pct p /\ 0 < double_pct p /\
  0 < triple_pct p /\ 0 < hr_pct p /\ 0 < hbp_pct p.

(** [sum(probabilities.values())]. *)
Definition sum_values (probabilities : list (Outcome * R)) : R :=
  fold_right Rplus 0 (map snd probabilities).

(** [probabilities[o]]. *)
Fixpoint get (probabilities : list (Outcome * R)) (o : Outcome) : option R :=
  match probabilities with
  | [] => None
  | (o', w) :: rest => if Outcome_eqb o o' then Some w else get rest o
  end.

(** The dot product of the derived probabilities with [LINEAR_WEIGHTS]. *)
Definition dot_weights (probabilities : list (Outcome * R)) : R :=
  fold_right (fun ow acc => LINEAR_WEIGHTS (fst ow) * snd ow + acc) 0
    probabilities.

Definition all_outcomes : list Outcome :=
  [o_k; o_bb; o_1b; o_2b; o_3b; o_hr; o_hbp; o_e; o_oip].

(** The derivation in the words of the specification: a log-linear
    regression [exp(a ln h + b ln p + c)] for six categories, a linear
    blend for [2b], the error share, and the residual. *)
Definition spec_regression (a b c h p : R) : R :=
  exp (a * ln h + b * ln p + c).

Definition spec_probabilities (hitter pitcher : Profile) : list (Outcome * R) :=
  let k := spec_regression 0.9427 0.9254 1.5268 (k_pct hitter) (k_pct pitcher) in
  let bb := spec_regression 0.906 0.8644 1.9975 (bb_pct hitter) (bb_pct pitcher) in
  let b1 :=
    spec_regression 1.01 1.017 1.943 (single_pct hitter) (single_pct pitcher) in
  let b2 :=
    0.9206 * double_pct hitter + 0.95779 * double_pct pitcher + - 0.03968 in
  let b3 :=
    spec_regression 0.8435 0.8698 3.8809 (triple_pct hitter) (triple_pct pitcher) in
  let hr := spec_regression 0.9576 0.9268 3.2129 (hr_pct hitter) (hr_pct pitcher) in
  let hbp :=
    spec_regression 0.8761 0.7623 2.995 (hbp_pct hitter) (hbp_pct pitcher) in
  let e := (1 - (k + bb + hbp)) * 0.016 in
  let oip := 1 - (k + bb + b1 + b2 + b3 + hr + hbp + e) in
  [(o_k, k); (o_bb, bb); (o_1b, b1); (o_2b, b2); (o_3b, b3); (o_hr, hr);
   (o_hbp, hbp); (o_e, e); (o_oip, oip)].

(** The same derivation with the base the program uses: the regression is
    [2.71828 ** y], that is [exp (y * ln 2.71828)]. *)
Definition code_regression (a b c h p : R) : R :=
  exp ((a * ln h + b * ln p + c) * ln 2.71828).

Definition code_probabilities (hitter pitcher : Profile) : list (Outcome * R) :=
  let k := code_regression 0.9427 0.9254 1.5268 (k_pct hitter) (k_pct pitcher) in
  let bb := code_regression 0.906 0.8644 1.9975 (bb_pct hitter) (bb_pct pitcher) in
  let b1 :=
    code_regression 1.01 1.017 1.943 (single_pct hitter) (single_pct pitcher) in
  let b2 :=
    0.9206 * double_pct hitter + 0.95779 * double_pct pitcher + - 0.03968 in
  let b3 :=
    code_regression 0.8435 0.8698 3.8809 (triple_pct hitter) (triple_pct pitcher) in
  let hr := code_regression 0.9576 0.9268 3.2129 (hr_pct hitter) (hr_pct pitcher) in
  let hbp :=
    code_regression 0.8761 0.7623 2.995 (hbp_pct hitter) (hbp_pct pitcher) in
  let e := (1 - (k + bb + hbp)) * 0.016 in
  let oip := 1 - (k + bb + b1 + b2 + b3 + hr + hbp + e) in
  [(o_k, k); (o_bb, bb); (o_1b, b1); (o_2b, b2); (o_3b, b3); (o_hr, hr);
   (o_hbp, hbp); (o_e, e); (o_oip, oip)].

(** ** Concrete inputs *)

(** A league-average looking profile: the one of the end-to-end scenario. *)
Definition scenario_profile : Profile :=
  mkProfile 0.20 0.08 0.15 0.05 0.005 0.03 0.01.

(** A profile of patient hitters and wild pitchers: few strikeouts, many
    walks. *)
Definition walk_profile : Profile :=
  mkProfile 0.0625 0.5 0.15 0.05 0.005 0.03 0.01.

(** The search [bisect] performs over nine cumulative weights [a0 .. a8]
    between [lo = 0] and [hi = 8], unrolled ([a8] is never inspected). *)
Definition tree9 (a0 a1 a2 a3 a4 a5 a6 a7 x : R) : nat :=
  if Rlt_dec x a4 then
    if Rlt_dec x a2 then
      if Rlt_dec x a1 then if Rlt_dec x a0 then 0 else 1 else 2
    else if Rlt_dec x a3 then 3 else 4
  else
    if Rlt_dec x a6 then if Rlt_dec x a5 then 5 else 6
    else if Rlt_dec x a7 then 7 else 8.

(** What [random.choices] returns from a nine-entry dictionary whose values
    total 1, when [random.random()] is [u] ([sim_plate_app_draw9] below). *)
Definition draw9 (probabilities : list (Outcome * R)) (u : R) : Outcome :=
  let a := accumulate (map snd probabilities) in
  nth (tree9 (nth 0 a 0) (nth 1 a 0) (nth 2 a 0) (nth 3 a 0) (nth 4 a 0)
             (nth 5 a 0) (nth 6 a 0) (nth 7 a 0) u)
      (map fst probabilities) o_k.

(** A complete roster: at least [n] rows, every one a valid profile. *)
Definition valid_roster (n : nat) (df : list Row) : Prop :=
  (n <= length df)%nat /\ Forall (fun r => positive_rates (to_dict r)) df.

(** [n] rows with the same profile, in [order] 1 to [n]. *)
Definition roster (n : nat) (p : Profile) : list Row :=
  map (fun i => mkRow (Z.of_nat i) p) (seq 1 n).

(** A random source that always returns [u]. *)
Definition always (u : R) : nat -> R := fun _ => u.

(** The rosters of the end-to-end scenario, and rosters of [walk_profile]
    players. *)
Definition scenario_pitchers : list Row := roster 3 scenario_profile.
Definition scenario_hitters : list Row := roster 9 scenario_profile.
Definition walk_pitchers : list Row := roster 3 walk_profile.
Definition walk_hitters : list Row := roster 9 walk_profile.


(** The cell-by-cell mean of the runs grids of a list of games. *)
Definition mean_runs_grid (games : list (Grid * Grid)) : Grid :=
  fun r c =>
    fold_right (fun g acc => fst g r c + acc) 0 games / INR (length games).

(** The scenario profile with twice the doubles rate, and two lineups that
    differ by the slot this hitter bats in. *)
Definition doubles_profile : Profile :=
  mkProfile 0.20 0.08 0.15 0.10 0.005 0.03 0.01.

Definition lineup_a : list Row :=
  mkRow 1 doubles_profile :: mkRow 2 scenario_profile
  :: map (fun i => mkRow (Z.of_nat i) scenario_profile) (seq 3 7).

Definition lineup_b : list Row :=
  mkRow 1 scenario_profile :: mkRow 2 doubles_profile
  :: map (fun i => mkRow (Z.of_nat i) scenario_profile) (seq 3 7).

(** The expected runs created of a plate appearance. *)
Definition expected_runs (hitter pitcher : Profile) : R :=
  dot_weights (code_probabilities hitter pitcher).

(** The expected runs created of the first [t] plate appearances of a
    lineup against pitchers who all have the profile [p]. *)
Definition lineup_runs (hitters_df : list Row) (p : Profile) (t : nat) : R :=
  sum_from
    (fun i =>
       match nth_error hitters_df (i mod 9) with
       | Some hitter => expected_runs (to_dict hitter) p
       | None => 0
       end) 0 t.

(** ** Vocabulary of the further properties *)

(** The rates [sim_plate_app] takes the logarithm of. *)
Definition logged_rates_positive (p : Profile) : Prop :=
  0 < k_pct p /\ 0 < bb_pct p /\ 0 < single_pct p /\
  0 < triple_pct p /\ 0 < hr_pct p /\ 0 < hbp_pct p.

(** A profile with another strikeout rate. *)
Definition with_k_pct (p : Profile) (k : R) : Profile :=
  mkProfile k (bb_pct p) (single_pct p) (double_pct p) (triple_pct p)
    (hr_pct p) (hbp_pct p).

(** Rates of one in about a million, except for doubles. *)
Definition rare_profile : Profile :=
  mkProfile (/ 2 ^ 20) (/ 2 ^ 20) (/ 2 ^ 20) 0.05 (/ 2 ^ 20) (/ 2 ^ 20)
    (/ 2 ^ 20).

(** Some plate appearance among the first [t] of a game was made in inning
    [r + 1] by slot [c]. *)
Definition batted (rand : nat -> R) (pitchers_df hitters_df : list Row)
    (using_opener : bool) (rng0 t r c : nat) : Prop :=
  exists (i : nat) (si : GameState),
    (i < t)%nat /\
    after_pas rand pitchers_df hitters_df using_opener rng0 i = Some si /\
    (outs si / 3)%nat = r /\ (i mod 9 + 1)%nat = c.


(** * Properties *)

(** ** Real numbers: the constant [e] and powers *)

Lemma inv_fact_decreasing : Un_decreasing (fun i : nat => / INR (fact i)).
Proof.
  intro n. apply Rinv_le_contravar.
  - apply INR_fact_lt_0.
  - apply le_INR, fact_le. lia.
Qed.

Lemma inv_fact_cv_0 : Un_cv (fun i : nat => / INR (fact i)) 0.
Proof.
  intros eps Heps. destruct (cv_speed_pow_fact 1 eps Heps) as [N HN].
  exists N. intros n Hn. specialize (HN n Hn).
  rewrite pow1 in HN. unfold Rdiv in HN. rewrite Rmult_1_l in HN. exact HN.
Qed.

(** [exp (-1)] lies below every even partial sum of its alternating
    series. *)
Lemma exp_opp_1_le (N : nat) :
  exp (-1) <= sum_f_R0 (tg_alt (fun i : nat => / INR (fact i))) (2 * N).
Proof.
  unfold exp. destruct (exist_exp (-1)) as [x Hx]. simpl.
  assert (H := alternated_series_ineq (fun i : nat => / INR (fact i)) x N
                 inv_fact_decreasing inv_fact_cv_0).
  apply H.
  unfold exp_in, infinite_sum in Hx. unfold Un_cv, tg_alt.
  intros eps Heps. destruct (Hx eps Heps) as [M HM]. exists M. intros n Hn.
  replace (sum_f_R0 (fun i : nat => (-1) ^ i * / INR (fact i)) n)
    with (sum_f_R0 (fun i : nat => / INR (fact i) * (-1) ^ i) n).
  - apply HM, Hn.
  - apply sum_eq. intros. apply Rmult_comm.
Qed.

Lemma inv_fact_S (n : nat) :
  / INR (fact (S n)) = / INR (fact n) / INR (S n).
Proof.
  rewrite fact_simpl, mult_INR. unfold Rdiv.
  rewrite Rinv_mult. apply Rmult_comm.
Qed.

(** The base the program uses is smaller than [e]. *)
Lemma e_lower_bound : 2.71828 < exp 1.
Proof.
  assert (H := exp_opp_1_le 5).
  change (2 * 5)%nat with 10%nat in H.
  unfold tg_alt in H. cbn [sum_f_R0] in H.
  rewrite !inv_fact_S in H.
  change (fact 0) with 1%nat in H.
  rewrite !S_INR in H. change (INR 0) with 0 in H.
  simpl pow in H.
  replace (exp (-1)) with (/ exp 1) in H
    by (rewrite <- exp_Ropp; f_equal; lra).
  assert (Hp := exp_pos 1).
  apply Rnot_le_lt. intro Hle.
  assert (/ 2.71828 <= / exp 1) by (apply Rinv_le_contravar; lra).
  lra.
Qed.

Lemma ln_base_lt_1 : ln 2.71828 < 1.
Proof.
  replace 1 with (ln (exp 1)) by apply ln_exp.
  apply ln_increasing; [lra | apply e_lower_bound].
Qed.

Lemma ln_base_gt_half : / 2 < ln 2.71828.
Proof.
  apply Rlt_trans with (ln 2); [apply ln_lt_2 | apply ln_increasing; lra].
Qed.

Lemma ln_2_lt_1 : ln 2 < 1.
Proof.
  replace 1 with (ln (exp 1)) by apply ln_exp.
  apply ln_increasing; [lra|].
  generalize (exp_ineq1 1). lra.
Qed.

Lemma ln_5_gt_1 : 1 < ln 5.
Proof.
  replace 1 with (ln (exp 1)) by apply ln_exp.
  apply ln_increasing; [apply exp_pos|].
  generalize exp_le_3. lra.
Qed.

(** ** The outcome model *)

Lemma math_log_pos (x : R) : 0 < x -> math_log x = Ok (ln x).
Proof.
  intros H. unfold math_log.
  destruct (Rlt_dec 0 x); [reflexivity | contradiction].
Qed.

Lemma plate_app_locals_Ok (hitter pitcher : Profile) :
  positive_rates hitter -> positive_rates pitcher ->
  plate_app_locals hitter pitcher =
  Ok (code_probabilities hitter pitcher,
      dot_weights (code_probabilities hitter pitcher)).
Proof.
  intros (h1 & h2 & h3 & h4 & h5 & h6 & h7) (p1 & p2 & p3 & p4 & p5 & p6 & p7).
  unfold plate_app_locals.
  rewrite !math_log_pos by assumption. cbn [bind].
  unfold code_probabilities, code_regression, Rpower, dot_weights.
  cbn [fold_right fst snd].
  f_equal. f_equal.
  - repeat (f_equal; try lra).
  - set (k := exp _). set (bb := exp _). set (b1 := exp _). set (b3 := exp _).
    set (hr := exp _). set (hbp := exp _). lra.
Qed.

Lemma bisect_9 (a0 a1 a2 a3 a4 a5 a6 a7 a8 x : R) :
  bisect [a0; a1; a2; a3; a4; a5; a6; a7; a8] x 0 8 =
  tree9 a0 a1 a2 a3 a4 a5 a6 a7 x.
Proof.
  unfold bisect, tree9. simpl.
  repeat (destruct (Rlt_dec _ _); simpl); reflexivity.
Qed.

(** *** [bisect] and [accumulate] in general *)


Lemma bisect_loop_done (a : list R) (x : R) (fuel lo hi : nat) :
  (hi <= lo)%nat -> bisect_loop fuel a x lo hi = lo.
Proof.
  intros H. destruct fuel; cbn [bisect_loop]; [reflexivity|].
  destruct (Nat.ltb_spec lo hi); [lia | reflexivity].
Qed.

Lemma bisect_loop_fuel (a : list R) (x : R) :
  forall f1 f2 lo hi : nat,
    (hi - lo <= f1)%nat -> (hi - lo <= f2)%nat ->
    bisect_loop f1 a x lo hi = bisect_loop f2 a x lo hi.
Proof.
  induction f1 as [|f1 IH]; intros f2 lo hi H1 H2.
  - rewrite !bisect_loop_done by lia. reflexivity.
  - destruct f2 as [|f2].
    + rewrite !bisect_loop_done by lia. reflexivity.
    + cbn [bisect_loop]. destruct (Nat.ltb_spec lo hi) as [Hlt|Hge]; [|reflexivity].
      cbv zeta.
      assert (Hmid : (lo <= (lo + hi) / 2 < hi)%nat).
      { split.
        - apply Nat.div_le_lower_bound; lia.
        - apply Nat.Div0.div_lt_upper_bound; lia. }
      destruct (Rlt_dec x (nth ((lo + hi) / 2) a 0)); apply IH; lia.
Qed.

Lemma bisect_loop_enough (a : list R) (x : R) (fuel lo hi : nat) :
  (hi - lo <= fuel)%nat ->
  bisect_loop fuel a x lo hi = bisect a x lo hi.
Proof. intros H. apply bisect_loop_fuel; lia. Qed.







Lemma sum_values_code_probabilities (h p : Profile) :
  sum_values (code_probabilities h p) = 1.
Proof.
  unfold sum_values, code_probabilities. cbn [map snd fold_right]. lra.
Qed.

Lemma choices_9 {A : Type} (o0 o1 o2 o3 o4 o5 o6 o7 o8 : A)
    (w0 w1 w2 w3 w4 w5 w6 w7 w8 u : R) :
  w0 + w1 + w2 + w3 + w4 + w5 + w6 + w7 + w8 = 1 ->
  choices [o0; o1; o2; o3; o4; o5; o6; o7; o8]
          [w0; w1; w2; w3; w4; w5; w6; w7; w8] u =
  Ok (nth (tree9 w0 (w0 + w1) (w0 + w1 + w2) (w0 + w1 + w2 + w3)
             (w0 + w1 + w2 + w3 + w4) (w0 + w1 + w2 + w3 + w4 + w5)
             (w0 + w1 + w2 + w3 + w4 + w5 + w6)
             (w0 + w1 + w2 + w3 + w4 + w5 + w6 + w7) u)
          [o0; o1; o2; o3; o4; o5; o6; o7; o8] o0).
Proof.
  intros Htot. unfold choices.
  cbn [accumulate accumulate_from length Nat.eqb negb rev app].
  rewrite Htot. destruct (Rle_dec 1 0) as [H|_]; [lra|].
  cbn [Nat.sub]. rewrite bisect_9, Rmult_1_r.
  unfold tree9.
  repeat (destruct (Rlt_dec _ _); try reflexivity).
Qed.


Lemma positive_scenario : positive_rates scenario_profile.
Proof. unfold positive_rates, scenario_profile; cbn; repeat split; lra. Qed.

Lemma positive_walk : positive_rates walk_profile.
Proof. unfold positive_rates, walk_profile; cbn; repeat split; lra. Qed.

Lemma code_regression_pos (a b c h p : R) : 0 < code_regression a b c h p.
Proof. apply exp_pos. Qed.

Ltac forget_powers :=
  repeat match goal with
  | |- context [Rpower ?b ?y] =>
      let x := fresh "x" in set (x := Rpower b y) in *; clearbody x
  end.

(** Whatever [plate_app_locals] returns is a nine-entry dictionary whose
    values total 1, with the score that goes with it. *)
Lemma plate_app_locals_inv (hitter pitcher : Profile)
    (probabilities : list (Outcome * R)) (rc : R) :
  plate_app_locals hitter pitcher = Ok (probabilities, rc) ->
  exists w0 w1 w2 w3 w4 w5 w6 w7 w8 : R,
    probabilities =
      [(o_k, w0); (o_bb, w1); (o_1b, w2); (o_2b, w3); (o_3b, w4); (o_hr, w5);
       (o_hbp, w6); (o_e, w7); (o_oip, w8)] /\
    w0 + w1 + w2 + w3 + w4 + w5 + w6 + w7 + w8 = 1 /\
    0 < w0 /\
    rc = dot_weights probabilities.
Proof.
  unfold plate_app_locals, math_log.
  repeat (destruct (Rlt_dec 0 _); cbn [bind]; [|discriminate]).
  cbv zeta. intros [= <- <-]. do 9 eexists.
  split; [reflexivity|]. split; [|split; [apply exp_pos|]].
  - forget_powers. lra.
  - unfold dot_weights. cbn [fold_right fst snd LINEAR_WEIGHTS].
    forget_powers. lra.
Qed.

Lemma sim_plate_app_draw9 (hitter pitcher : Profile)
    (probabilities : list (Outcome * R)) (rc u : R) :
  plate_app_locals hitter pitcher = Ok (probabilities, rc) ->
  sim_plate_app hitter pitcher u = Ok (draw9 probabilities u, rc).
Proof.
  intros H. unfold sim_plate_app. rewrite H. cbn [bind].
  destruct (plate_app_locals_inv _ _ _ _ H)
    as (w0 & w1 & w2 & w3 & w4 & w5 & w6 & w7 & w8 & -> & Hsum & _ & _).
  cbn [map fst snd]. rewrite choices_9 by assumption. reflexivity.
Qed.


(** C1. For a hitter and a pitcher whose rates are all strictly positive,
    [sim_plate_app] derives nine probabilities, keyed k, bb, 1b, 2b, 3b, hr,
    hbp, e, oip; the last is 1 minus the sum of the other eight, and the
    nine sum to exactly 1. *)
Theorem probabilities_sum_to_one (hitter pitcher : Profile) :
  positive_rates hitter -> positive_rates pitcher ->
  exists (probabilities : list (Outcome * R)) (exp_runs_created : R),
    plate_app_locals hitter pitcher = Ok (probabilities, exp_runs_created) /\
    map fst probabilities = all_outcomes /\
    get probabilities o_oip = Some (1 - sum_values (removelast probabilities)) /\
    sum_values probabilities = 1.
Proof.
  intros Hh Hp. exists (code_probabilities hitter pitcher). eexists.
  split; [apply plate_app_locals_Ok; assumption|].
  split; [reflexivity|]. split.
  - unfold code_probabilities, sum_values.
    cbn [removelast map snd fold_right get Outcome_eqb]. f_equal. lra.
  - apply sum_values_code_probabilities.
Qed.

Lemma probabilities_sum_to_one_witness :
  exists (probabilities : list (Outcome * R)) (exp_runs_created : R),
    plate_app_locals scenario_profile scenario_profile =
      Ok (probabilities, exp_runs_created) /\
    map fst probabilities = all_outcomes /\
    get probabilities o_oip = Some (1 - sum_values (removelast probabilities)) /\
    sum_values probabilities = 1.
Proof.
  apply (probabilities_sum_to_one scenario_profile scenario_profile);
    unfold positive_rates, scenario_profile; cbn; repeat split; lra.
Defined.

(** C6. For a valid profile pair, the expected runs created that
    [sim_plate_app] returns is the dot product of the nine derived
    probabilities with the linear weights -0.26, 0.29, 0.44, 0.74, 1.01,
    1.39, 0.31, -0.26, -0.26, whatever value the random source hands out:
    it is a function of the two profiles alone. *)
Theorem exp_runs_created_is_dot_product (hitter pitcher : Profile) :
  positive_rates hitter -> positive_rates pitcher ->
  map LINEAR_WEIGHTS all_outcomes =
    [-0.26; 0.29; 0.44; 0.74; 1.01; 1.39; 0.31; -0.26; -0.26] /\
  exists probabilities : list (Outcome * R),
    fmap fst (plate_app_locals hitter pitcher) = Ok probabilities /\
    forall u : R, exists simulated_outcome : Outcome,
      sim_plate_app hitter pitcher u =
      Ok (simulated_outcome, dot_weights probabilities).
Proof.
  intros Hh Hp. split; [reflexivity|].
  exists (code_probabilities hitter pitcher).
  assert (H := plate_app_locals_Ok hitter pitcher Hh Hp).
  split; [unfold fmap; rewrite H; reflexivity|].
  intros u. eexists. apply sim_plate_app_draw9. exact H.
Qed.

Lemma exp_runs_created_is_dot_product_witness :
  map LINEAR_WEIGHTS all_outcomes =
    [-0.26; 0.29; 0.44; 0.74; 1.01; 1.39; 0.31; -0.26; -0.26] /\
  exists probabilities : list (Outcome * R),
    fmap fst (plate_app_locals scenario_profile scenario_profile) =
      Ok probabilities /\
    forall u : R, exists simulated_outcome : Outcome,
      sim_plate_app scenario_profile scenario_profile u =
      Ok (simulated_outcome, dot_weights probabilities).
Proof.
  apply (exp_runs_created_is_dot_product scenario_profile scenario_profile);
    unfold positive_rates, scenario_profile; cbn; repeat split; lra.
Defined.



Lemma ln_scenario_k : ln 0.20 < -1.
Proof.
  replace 0.20 with (/ 5) by lra. rewrite ln_Rinv by lra.
  generalize ln_5_gt_1. lra.
Qed.

(** C7, as stated, fails: between two players of the end-to-end scenario
    the strikeout probability the program derives is not
    [exp(a ln h + b ln p + c)], because the program raises 2.71828, not [e],
    to that power. *)
Lemma derivation_is_not_exp :
  fmap fst (plate_app_locals scenario_profile scenario_profile) <>
  Ok (spec_probabilities scenario_profile scenario_profile).
Proof.
  rewrite plate_app_locals_Ok by apply positive_scenario.
  unfold fmap. cbn [bind fst].
  unfold code_probabilities, spec_probabilities. cbv zeta.
  intros [= Hk _]. unfold code_regression, spec_regression in Hk.
  apply exp_inv in Hk. cbn [k_pct scenario_profile] in Hk.
  generalize ln_scenario_k ln_base_lt_1 ln_base_gt_half. nra.
Qed.

(** C7, amended. For a valid profile pair, k, bb, 1b, 3b, hr and hbp are
    derived as 2.71828 raised to [a ln h + b ln p + c], that is
    [exp((a ln h + b ln p + c) * ln 2.71828)], with the constants of each
    category; 2b is the linear blend, without logarithm; e is
    [(1 - (k + bb + hbp)) * 0.016]; oip is the residual. *)
Theorem derivation_with_program_base (hitter pitcher : Profile) :
  positive_rates hitter -> positive_rates pitcher ->
  fmap fst (plate_app_locals hitter pitcher) =
  Ok (code_probabilities hitter pitcher).
Proof.
  intros Hh Hp. unfold fmap. rewrite plate_app_locals_Ok by assumption.
  reflexivity.
Qed.

Lemma derivation_with_program_base_witness :
  fmap fst (plate_app_locals scenario_profile scenario_profile) =
  Ok (code_probabilities scenario_profile scenario_profile).
Proof.
  apply (derivation_with_program_base scenario_profile scenario_profile);
    unfold positive_rates, scenario_profile; cbn; repeat split; lra.
Defined.

(** *** Two draws worked out *)

(** With [random.random() = 0] the draw is a strikeout, as soon as the
    doubles weight is not negative. *)
Lemma draw9_zero (hitter pitcher : Profile) :
  0 <= 0.9206 * double_pct hitter + 0.95779 * double_pct pitcher + - 0.03968 ->
  draw9 (code_probabilities hitter pitcher) 0 = o_k.
Proof.
  intros Hd. unfold draw9, code_probabilities. cbv zeta.
  cbn [map fst snd accumulate accumulate_from nth].
  assert (Hk := code_regression_pos 0.9427 0.9254 1.5268 (k_pct hitter) (k_pct pitcher)).
  assert (Hbb := code_regression_pos 0.906 0.8644 1.9975 (bb_pct hitter) (bb_pct pitcher)).
  assert (H1 := code_regression_pos 1.01 1.017 1.943 (single_pct hitter) (single_pct pitcher)).
  assert (H3 := code_regression_pos 0.8435 0.8698 3.8809 (triple_pct hitter) (triple_pct pitcher)).
  unfold tree9.
  repeat (destruct (Rlt_dec _ _); try lra); reflexivity.
Qed.

Lemma ln_walk_k : ln 0.0625 < -2.
Proof.
  replace 0.0625 with (/ (2 ^ 4)) by (simpl; lra).
  rewrite ln_Rinv by (simpl; lra). rewrite ln_pow by lra.
  simpl INR. generalize ln_lt_2. lra.
Qed.

Lemma ln_walk_bb : -1 < ln 0.5.
Proof.
  replace 0.5 with (/ 2) by lra. rewrite ln_Rinv by lra.
  generalize ln_2_lt_1. lra.
Qed.

Lemma exp_lt_half (y : R) : y <= -1 -> exp y < 0.5.
Proof.
  intros Hy. apply Rle_lt_trans with (exp (-1)).
  - destruct (Req_dec y (-1)) as [->|]; [lra|].
    left. apply exp_increasing. lra.
  - replace (-1) with (- (1)) by lra. rewrite exp_Ropp.
    assert (2 < exp 1) by (generalize (exp_ineq1 1); lra).
    replace 0.5 with (/ 2) by lra. apply Rinv_lt_contravar; lra.
Qed.

Lemma exp_gt_1 (y : R) : 0 < y -> 1 < exp y.
Proof. intros Hy. generalize (exp_ineq1 y). lra. Qed.

Lemma walk_k_lt_half :
  code_regression 0.9427 0.9254 1.5268 (k_pct walk_profile)
    (k_pct walk_profile) < 0.5.
Proof.
  unfold code_regression. apply exp_lt_half. cbn [k_pct walk_profile].
  generalize ln_walk_k ln_base_gt_half ln_base_lt_1. nra.
Qed.

Lemma walk_bb_gt_1 :
  1 < code_regression 0.906 0.8644 1.9975 (bb_pct walk_profile)
        (bb_pct walk_profile).
Proof.
  unfold code_regression. apply exp_gt_1. cbn [bb_pct walk_profile].
  generalize ln_walk_bb ln_base_gt_half ln_base_lt_1. nra.
Qed.

(** Between two [walk_profile] players the derived walk probability
    exceeds 1, and the error weight is negative. *)
Lemma walk_profile_negative_weight :
  exists w : R,
    get (code_probabilities walk_profile walk_profile) o_e = Some w /\ w < 0.
Proof.
  unfold code_probabilities. cbv zeta. cbn [get Outcome_eqb].
  eexists. split; [reflexivity|].
  assert (Hbb := walk_bb_gt_1).
  assert (Hk := code_regression_pos 0.9427 0.9254 1.5268
                  (k_pct walk_profile) (k_pct walk_profile)).
  assert (Hhbp := code_regression_pos 0.8761 0.7623 2.995
                    (hbp_pct walk_profile) (hbp_pct walk_profile)).
  lra.
Qed.

(** With [random.random() = 0.5] the draw between two [walk_profile]
    players is a walk. *)
Lemma draw9_walk :
  draw9 (code_probabilities walk_profile walk_profile) 0.5 = o_bb.
Proof.
  unfold draw9, code_probabilities. cbv zeta.
  cbn [map fst snd accumulate accumulate_from nth].
  assert (Hk := walk_k_lt_half). assert (Hbb := walk_bb_gt_1).
  assert (Hk0 := code_regression_pos 0.9427 0.9254 1.5268
                   (k_pct walk_profile) (k_pct walk_profile)).
  assert (H1 := code_regression_pos 1.01 1.017 1.943
                  (single_pct walk_profile) (single_pct walk_profile)).
  assert (H3 := code_regression_pos 0.8435 0.8698 3.8809
                  (triple_pct walk_profile) (triple_pct walk_profile)).
  cbn [double_pct walk_profile] in *.
  unfold tree9.
  repeat (destruct (Rlt_dec _ _); try lra); reflexivity.
Qed.

(** ** The game simulator *)

Section GameFacts.

Variable rand : nat -> R.
Variables pitchers_df hitters_df : list Row.
Variable using_opener : bool.

#[local] Abbreviation body := (loop_body rand pitchers_df hitters_df using_opener).
#[local] Abbreviation loop := (while_loop rand pitchers_df hitters_df using_opener).
#[local] Abbreviation after := (after_pas rand pitchers_df hitters_df using_opener).

(** What one iteration of the loop does to the state. *)
Lemma loop_body_inv (s s' : GameState) :
  body s = Ok s' ->
  exists (hitter pitcher : Row) (simulated_outcome : Outcome) (exp_runs_created : R),
    iloc hitters_df (position_in_order s mod 9 + 1 - 1) = Ok hitter /\
    loc pitchers_df (current_pitcher s' - 1) = Ok pitcher /\
    sim_plate_app (to_dict hitter) (to_dict pitcher) (rand (rng s)) =
      Ok (simulated_outcome, exp_runs_created) /\
    total_plate_apps s' = (total_plate_apps s + 1)%nat /\
    position_in_order s' = (position_in_order s mod 9 + 1)%nat /\
    (current_pitcher s', outs_at_pitching_change s') =
      change_pitchers using_opener (outs s) (total_plate_apps s + 1)
        (current_pitcher s) (outs_at_pitching_change s) /\
    outs s' = (if is_out simulated_outcome then outs s + 1 else outs s)%nat /\
    rng s' = S (rng s) /\
    sim_rc_per_hitter_per_inning s' =
      loc_add (sim_rc_per_hitter_per_inning s) (outs s / 3 + 1 - 1)
        (position_in_order s mod 9 + 1) exp_runs_created /\
    sim_pa_per_hitter_per_inning s' =
      at_set (sim_pa_per_hitter_per_inning s) (outs s / 3 + 1 - 1)
        (position_in_order s mod 9 + 1) 1.
Proof.
  unfold loop_body.
  destruct (change_pitchers _ _ _ _ _) as [cp m] eqn:Hcp.
  destruct (iloc hitters_df _) as [hitter| |] eqn:Hh; cbn [bind]; try discriminate.
  destruct (loc pitchers_df _) as [pitcher| |] eqn:Hp; cbn [bind]; try discriminate.
  destruct (sim_plate_app _ _ _) as [[o e]| |] eqn:Hsim; cbn [bind]; try discriminate.
  intros [= <-]. cbn.
  exists hitter, pitcher, o, e. repeat split; auto.
Qed.

Lemma loop_body_outs (s s' : GameState) :
  body s = Ok s' -> (outs s <= outs s' <= outs s + 1)%nat.
Proof.
  intros H. destruct (loop_body_inv _ _ H)
    as (h & p & o & e & _ & _ & _ & _ & _ & _ & Ho & _).
  rewrite Ho. destruct (is_out o); lia.
Qed.

Variable rng0 : nat.

Lemma after_pas_S (t : nat) (s' : GameState) :
  after rng0 (S t) = Some s' <->
  exists s, after rng0 t = Some s /\ (outs s < 27)%nat /\ body s = Ok s'.
Proof.
  cbn [after_pas]. split.
  - destruct (after rng0 t) as [s|]; [|discriminate].
    destruct (Nat.ltb_spec (outs s) 27); [|discriminate].
    destruct (body s) as [s1| |] eqn:Hb; try discriminate.
    intros [= <-]. exists s. auto.
  - intros (s & -> & Hlt & ->).
    destruct (Nat.ltb_spec (outs s) 27); [reflexivity | lia].
Qed.

(** The plate appearances of a game are numbered without gaps. *)
Lemma after_pas_prefix (t n : nat) (s : GameState) :
  after rng0 n = Some s -> (t <= n)%nat -> exists s0, after rng0 t = Some s0.
Proof.
  intros H Hle. revert s H. induction Hle as [|n Hle IH]; intros s H.
  - eauto.
  - apply after_pas_S in H. destruct H as (s1 & H1 & _). eauto.
Qed.

Lemma after_pas_counts (t : nat) (s : GameState) :
  after rng0 t = Some s ->
  total_plate_apps s = t /\ rng s = (rng0 + t)%nat /\
  (outs s <= t)%nat /\ (outs s <= 27)%nat.
Proof.
  revert s. induction t as [|t IH]; intros s H.
  - cbn in H. injection H as <-. cbn. lia.
  - apply after_pas_S in H. destruct H as (s0 & H0 & Hlt & Hb).
    destruct (IH _ H0) as (Hpa & Hrng & Ho & _).
    assert (Houts := loop_body_outs _ _ Hb).
    destruct (loop_body_inv _ _ Hb)
      as (h & p & o & e & _ & _ & _ & Hpa' & _ & _ & _ & Hrng' & _).
    lia.
Qed.

Lemma after_pas_outs_mono (t1 t2 : nat) (s1 s2 : GameState) :
  after rng0 t1 = Some s1 -> after rng0 t2 = Some s2 -> (t1 <= t2)%nat ->
  (outs s1 <= outs s2)%nat.
Proof.
  intros H1 H2 Hle. revert s2 H2.
  induction Hle as [|n Hle IH]; intros s2 H2.
  - rewrite H1 in H2. injection H2 as <-. lia.
  - apply after_pas_S in H2. destruct H2 as (s & Hs & _ & Hb).
    specialize (IH _ Hs). apply loop_body_outs in Hb. lia.
Qed.

(** The loop and the numbered plate appearances. *)
Lemma while_loop_after_pas (fuel t : nat) (s sf : GameState) :
  after rng0 t = Some s -> loop fuel s = Ok sf ->
  exists n, (n <= fuel)%nat /\ after rng0 (t + n) = Some sf /\ (27 <= outs sf)%nat.
Proof.
  revert t s. induction fuel as [|fuel IH]; intros t s Ht; cbn [while_loop].
  - destruct (Nat.ltb_spec (outs s) 27); [discriminate|].
    intros [= <-]. exists 0%nat. rewrite Nat.add_0_r. auto.
  - destruct (Nat.ltb_spec (outs s) 27) as [Hlt|Hge].
    + destruct (body s) as [s1| |] eqn:Hb; cbn [bind]; try discriminate.
      intros Hl.
      assert (H1 : after rng0 (S t) = Some s1) by (apply after_pas_S; eauto).
      destruct (IH _ _ H1 Hl) as (n & Hn & Hn' & Ho).
      exists (S n). replace (t + S n)%nat with (S t + n)%nat by lia.
      repeat split; auto; lia.
    + intros [= <-]. exists 0%nat. rewrite Nat.add_0_r. repeat split; auto; lia.
Qed.

Lemma after_pas_while_loop (n : nat) :
  forall (fuel t : nat) (s sf : GameState),
    after rng0 t = Some s -> after rng0 (t + n) = Some sf ->
    (27 <= outs sf)%nat -> (n <= fuel)%nat ->
    loop fuel s = Ok sf.
Proof.
  induction n as [|n IH]; intros fuel t s sf Ht Hn Ho Hf.
  - rewrite Nat.add_0_r, Ht in Hn. injection Hn as <-.
    destruct fuel; cbn [while_loop];
      (destruct (Nat.ltb_spec (outs s) 27); [lia | reflexivity]).
  - destruct fuel as [|fuel]; [lia|].
    destruct (after_pas_prefix (S t) (t + S n) sf Hn) as (s1 & H1); [lia|].
    assert (H1' := H1). apply after_pas_S in H1'.
    destruct H1' as (s0 & H0 & Hlt & Hb).
    rewrite Ht in H0. injection H0 as <-.
    cbn [while_loop]. destruct (Nat.ltb_spec (outs s) 27); [|lia].
    rewrite Hb. cbn [bind].
    apply (IH fuel (S t)); auto; [|lia].
    replace (S t + n)%nat with (t + S n)%nat by lia. exact Hn.
Qed.


Hypothesis valid_pitchers : valid_roster 3 pitchers_df.
Hypothesis valid_hitters : valid_roster 9 hitters_df.

Lemma change_pitchers_range (o pa cp m : nat) :
  (1 <= cp <= 3)%nat ->
  (1 <= fst (change_pitchers using_opener o pa cp m) <= 3)%nat.
Proof.
  intros H. unfold change_pitchers.
  destruct using_opener.
  - destruct ((o =? 3) && (cp =? 1))%nat;
      [cbn [Nat.eqb andb]; destruct (27 <? pa)%nat; cbn; lia|].
    destruct ((27 <? pa) && (cp =? 2))%nat; cbn; lia.
  - destruct ((24 <? pa) && (cp =? 2))%nat.
    + cbn [Nat.eqb andb]. destruct ((o =? o + 3) && true)%nat; cbn; lia.
    + destruct ((o =? m + 3) && (cp =? 1))%nat; cbn; lia.
Qed.

Lemma after_pas_pitcher_range (t : nat) (s : GameState) :
  after rng0 t = Some s -> (1 <= current_pitcher s <= 3)%nat.
Proof.
  revert s. induction t as [|t IH]; intros s H.
  - cbn in H. injection H as <-. cbn. destruct using_opener; lia.
  - apply after_pas_S in H. destruct H as (s0 & H0 & _ & Hb).
    destruct (loop_body_inv _ _ Hb)
      as (h & p & o & e & _ & _ & _ & _ & _ & Hcp & _).
    assert (Hr := change_pitchers_range (outs s0) (total_plate_apps s0 + 1)
                    (current_pitcher s0) (outs_at_pitching_change s0)
                    (IH _ H0)).
    rewrite <- Hcp in Hr. exact Hr.
Qed.

(** With complete, valid rosters an iteration never raises, and its
    outcome is the draw between a hitter and a pitcher of the rosters. *)
Lemma loop_body_draw (s : GameState) :
  (1 <= current_pitcher s <= 3)%nat ->
  exists (hitter pitcher : Row) (s' : GameState),
    In hitter hitters_df /\ In pitcher pitchers_df /\
    body s = Ok s' /\
    outs s' =
      (if is_out (draw9 (code_probabilities (to_dict hitter) (to_dict pitcher))
                    (rand (rng s)))
       then outs s + 1 else outs s)%nat.
Proof.
  intros Hcp. destruct valid_pitchers as [Hlp Hfp], valid_hitters as [Hlh Hfh].
  unfold loop_body.
  assert (Hr := change_pitchers_range (outs s) (total_plate_apps s + 1)
                  (current_pitcher s) (outs_at_pitching_change s) Hcp).
  destruct (change_pitchers _ _ _ _ _) as [cp m]. cbn [fst] in Hr.
  unfold iloc, loc.
  destruct (nth_error hitters_df (position_in_order s mod 9 + 1 - 1))
    as [hitter|] eqn:Hh.
  2:{ apply nth_error_None in Hh.
      assert (position_in_order s mod 9 < 9)%nat by (apply Nat.mod_upper_bound; lia).
      lia. }
  destruct (nth_error pitchers_df (cp - 1)) as [pitcher|] eqn:Hp.
  2:{ apply nth_error_None in Hp. lia. }
  cbn [bind].
  assert (Hhin := nth_error_In _ _ Hh). assert (Hpin := nth_error_In _ _ Hp).
  rewrite Forall_forall in Hfp, Hfh.
  rewrite (sim_plate_app_draw9 _ _ _ _ _
             (plate_app_locals_Ok _ _ (Hfh _ Hhin) (Hfp _ Hpin))).
  cbn [bind]. eexists hitter, pitcher, _. repeat split; auto.
Qed.

Lemma after_pas_progress (t : nat) (s : GameState) :
  after rng0 t = Some s -> (outs s < 27)%nat ->
  exists s', after rng0 (S t) = Some s'.
Proof.
  intros H Hlt.
  destruct (loop_body_draw s (after_pas_pitcher_range _ _ H))
    as (h & p & s' & _ & _ & Hb & _).
  exists s'. apply after_pas_S. eauto.
Qed.

Lemma while_loop_out_of_fuel (fuel : nat) :
  forall (t : nat) (s s2 : GameState),
    after rng0 t = Some s -> after rng0 (t + fuel) = Some s2 ->
    (outs s2 < 27)%nat ->
    loop fuel s = OutOfFuel.
Proof.
  induction fuel as [|fuel IH]; intros t s s2 Ht H2 Hlt.
  - rewrite Nat.add_0_r, Ht in H2. injection H2 as <-.
    cbn [while_loop]. destruct (Nat.ltb_spec (outs s) 27); [reflexivity | lia].
  - assert (Hm := after_pas_outs_mono _ _ _ _ Ht H2 ltac:(lia)).
    destruct (after_pas_prefix (S t) _ _ H2) as (s1 & H1); [lia|].
    assert (H1' := H1). apply after_pas_S in H1'.
    destruct H1' as (s0 & H0 & _ & Hb). rewrite Ht in H0. injection H0 as <-.
    cbn [while_loop]. destruct (Nat.ltb_spec (outs s) 27); [|lia].
    rewrite Hb. cbn [bind]. apply (IH (S t) s1 s2); auto.
    replace (S t + fuel)%nat with (t + S fuel)%nat by lia. exact H2.
Qed.

Lemma game_in_progress_or_over (n : nat) :
  (exists s, after rng0 n = Some s /\ (outs s < 27)%nat) \/
  (exists m sf, (m <= n)%nat /\ after rng0 m = Some sf /\ outs sf = 27%nat).
Proof.
  induction n as [|n [(s & Hs & Hlt) | (m & sf & Hm & Hsf & Ho)]].
  - left. eexists. split; [reflexivity|]. cbn. lia.
  - destruct (after_pas_progress _ _ Hs Hlt) as (s' & Hs').
    destruct (after_pas_counts _ _ Hs') as (_ & _ & _ & Hle).
    destruct (Nat.eq_dec (outs s') 27) as [He|Hne].
    + right. exists (S n), s'. auto.
    + left. exists s'. split; [assumption | lia].
  - right. exists m, sf. auto.
Qed.

End GameFacts.

Lemma valid_roster_uniform (n : nat) (p : Profile) :
  positive_rates p -> valid_roster n (roster n p).
Proof.
  intros Hp. unfold valid_roster, roster. split.
  - rewrite length_map, length_seq. lia.
  - apply Forall_forall. intros r Hr. apply in_map_iff in Hr.
    destruct Hr as (i & <- & _). exact Hp.
Qed.

Lemma in_roster (n : nat) (p : Profile) (r : Row) :
  In r (roster n p) -> to_dict r = p.
Proof.
  unfold roster. intros Hr. apply in_map_iff in Hr.
  destruct Hr as (i & <- & _). reflexivity.
Qed.

(** C2, amended. With three valid pitchers and nine valid hitters
    [sim_game] never raises. After any number [fuel] of iterations, either
    the game is still running with fewer than 27 outs, or it has terminated:
    then the out count is exactly 27, at least 27 plate appearances were
    played, and more fuel gives the same final state. The loop ends at the
    plate appearance that records the 27th out, and not before. *)
Theorem sim_game_ends_at_27_outs (rand : nat -> R)
    (pitchers_df hitters_df : list Row) (using_opener : bool)
    (rng0 fuel : nat) :
  valid_roster 3 pitchers_df -> valid_roster 9 hitters_df ->
  (while_loop rand pitchers_df hitters_df using_opener fuel
     (initial_state using_opener rng0) = OutOfFuel /\
   exists s,
     after_pas rand pitchers_df hitters_df using_opener rng0 fuel = Some s /\
     (outs s < 27)%nat)
  \/
  (exists sf,
     (forall fuel', (fuel <= fuel')%nat ->
        while_loop rand pitchers_df hitters_df using_opener fuel'
          (initial_state using_opener rng0) = Ok sf) /\
     after_pas rand pitchers_df hitters_df using_opener rng0
       (total_plate_apps sf) = Some sf /\
     outs sf = 27%nat /\
     (27 <= total_plate_apps sf <= fuel)%nat).
Proof.
  intros Hp Hh.
  destruct (game_in_progress_or_over rand pitchers_df hitters_df using_opener
              rng0 Hp Hh fuel) as [(s & Hs & Hlt) | (m & sf & Hm & Hsf & Ho)].
  - left. split; [|eauto].
    apply (while_loop_out_of_fuel rand pitchers_df hitters_df using_opener
             rng0 fuel 0 _ s); auto.
  - right. exists sf.
    destruct (after_pas_counts _ _ _ _ _ _ _ Hsf) as (Hpa & _ & Hle & _).
    repeat split; try lia.
    + intros fuel' Hf.
      apply (after_pas_while_loop rand pitchers_df hitters_df using_opener
               rng0 m fuel' 0); auto; lia.
    + rewrite Hpa. exact Hsf.
Qed.

Section UniformGame.

Variable rand : nat -> R.
Variables pitchers_df hitters_df : list Row.
Variable using_opener : bool.
Variable rng0 : nat.
Hypothesis valid_pitchers : valid_roster 3 pitchers_df.
Hypothesis valid_hitters : valid_roster 9 hitters_df.

(** Every draw of the game gives the same category [o]. *)
Variable o : Outcome.
Hypothesis same_draw :
  forall (hitter pitcher : Row) (i : nat),
    In hitter hitters_df -> In pitcher pitchers_df ->
    draw9 (code_probabilities (to_dict hitter) (to_dict pitcher)) (rand i) = o.

Lemma uniform_game (t : nat) :
  (if is_out o then t <= 27 else True)%nat ->
  exists s,
    after_pas rand pitchers_df hitters_df using_opener rng0 t = Some s /\
    outs s = (if is_out o then t else 0)%nat.
Proof.
  induction t as [|t IH]; intros Ht.
  - eexists. split; [reflexivity|]. cbn. destruct (is_out o); reflexivity.
  - destruct IH as (s & Hs & Ho); [destruct (is_out o); lia|].
    destruct (loop_body_draw rand pitchers_df hitters_df using_opener
                valid_pitchers valid_hitters s
                (after_pas_pitcher_range _ _ _ _ _ _ _ Hs))
      as (h & p & s' & Hh & Hp & Hb & Ho').
    rewrite same_draw in Ho' by assumption.
    exists s'. split.
    + apply after_pas_S. exists s. repeat split; auto.
      rewrite Ho. destruct (is_out o); lia.
    + rewrite Ho', Ho. destruct (is_out o); lia.
Qed.

End UniformGame.

Lemma walk_game (using_opener : bool) (t : nat) :
  exists s,
    after_pas (always 0.5) walk_pitchers walk_hitters using_opener 0 t = Some s /\
    outs s = 0%nat.
Proof.
  apply (uniform_game (always 0.5) walk_pitchers walk_hitters using_opener 0
           (valid_roster_uniform 3 _ positive_walk)
           (valid_roster_uniform 9 _ positive_walk) o_bb); [|exact I].
  intros h p i Hh Hp. rewrite (in_roster _ _ _ Hh), (in_roster _ _ _ Hp).
  apply draw9_walk.
Qed.

(** C2, as stated, fails: with [walk_profile] rosters and a random source
    that always returns 0.5 every plate appearance is a walk, no out is ever
    recorded and no number of iterations ends the game. *)
Lemma walks_forever :
  ~ exists (fuel : nat) (result : Grid * Grid * nat),
      sim_game (always 0.5) walk_pitchers walk_hitters true fuel 0 = Ok result.
Proof.
  intros (fuel & result & H). unfold sim_game in H.
  destruct (walk_game true fuel) as (s & Hs & Ho).
  rewrite (while_loop_out_of_fuel (always 0.5) walk_pitchers walk_hitters true
             0 fuel 0 _ s) in H; auto; [discriminate | lia].
Qed.

Lemma strikeout_game (rand : nat -> R) (pitchers_df hitters_df : list Row)
    (using_opener : bool) (rng0 t : nat) :
  valid_roster 3 pitchers_df -> valid_roster 9 hitters_df ->
  (forall i, rand i = 0) ->
  (forall hitter pitcher, In hitter hitters_df -> In pitcher pitchers_df ->
     0 <= 0.9206 * double_pct (to_dict hitter)
          + 0.95779 * double_pct (to_dict pitcher) + - 0.03968) ->
  (t <= 27)%nat ->
  exists s,
    after_pas rand pitchers_df hitters_df using_opener rng0 t = Some s /\
    outs s = t.
Proof.
  intros Hp Hh Hrand Hd Ht.
  apply (uniform_game rand pitchers_df hitters_df using_opener rng0 Hp Hh o_k);
    [|exact Ht].
  intros h p i Hhin Hpin. rewrite Hrand. apply draw9_zero. auto.
Qed.

(** Settles the tests on counters that the context decides. *)
Ltac settle_tests :=
  repeat match goal with
  | |- context [(?a =? ?b)%nat] =>
      first [ replace (a =? b)%nat with true
                by (symmetry; apply Nat.eqb_eq; lia)
            | replace (a =? b)%nat with false
                by (symmetry; apply Nat.eqb_neq; lia) ]
  | |- context [(?a <? ?b)%nat] =>
      first [ replace (a <? b)%nat with true
                by (symmetry; apply Nat.ltb_lt; lia)
            | replace (a <? b)%nat with false
                by (symmetry; apply Nat.ltb_ge; lia) ]
  | |- context [(?a <=? ?b)%nat] =>
      first [ replace (a <=? b)%nat with true
                by (symmetry; apply Nat.leb_le; lia)
            | replace (a <=? b)%nat with false
                by (symmetry; apply Nat.leb_gt; lia) ]
  end; cbn [andb]; rewrite ?andb_false_r, ?andb_true_r.

(** *** The opener-first branch *)

Section OpenerFirst.

Variable rand : nat -> R.
Variables pitchers_df hitters_df : list Row.
Variable rng0 : nat.

#[local] Abbreviation after := (after_pas rand pitchers_df hitters_df true rng0).

Lemma opener_change (o pa cp m : nat) :
  (cp = 1 /\ o <= 3 \/ cp = 2 /\ 3 <= o /\ pa <= 28 \/ cp = 3 /\ 3 <= o /\ 28 < pa)%nat ->
  change_pitchers true o pa cp m =
  ((if o <? 3 then 1 else if pa <=? 27 then 2 else 3)%nat, m).
Proof.
  intros H. unfold change_pitchers. f_equal.
  destruct (lt_eq_lt_dec o 3) as [[Ho | Ho] | Ho];
    destruct (le_lt_dec pa 27) as [Hpa | Hpa];
    destruct H as [(-> & H) | [(-> & H1 & H2) | (-> & H1 & H2)]];
    try lia; repeat (settle_tests; try reflexivity).
Qed.

Lemma opener_invariant (t : nat) (s : GameState) :
  after t = Some s ->
  (current_pitcher s = 1 /\ outs s <= 3 \/
   current_pitcher s = 2 /\ 3 <= outs s /\ t <= 27 \/
   current_pitcher s = 3 /\ 3 <= outs s /\ 27 < t)%nat.
Proof.
  revert s. induction t as [|t IH]; intros s H.
  - cbn in H. injection H as <-. cbn. lia.
  - apply after_pas_S in H. destruct H as (s0 & H0 & _ & Hb).
    destruct (after_pas_counts _ _ _ _ _ _ _ H0) as (Hpa & _).
    assert (Ho := loop_body_outs _ _ _ _ _ _ Hb).
    destruct (loop_body_inv _ _ _ _ _ _ Hb)
      as (_ & _ & _ & _ & _ & _ & _ & _ & _ & Hcp & _).
    rewrite opener_change in Hcp by (specialize (IH _ H0); lia).
    injection Hcp as Hcp _. rewrite Hcp, Hpa.
    destruct (Nat.ltb_spec (outs s0) 3); [lia|].
    destruct (Nat.leb_spec (t + 1) 27); lia.
Qed.

Lemma opener_step (t : nat) (s s' : GameState) :
  after t = Some s -> after (S t) = Some s' ->
  current_pitcher s' =
  (if outs s <? 3 then 1 else if S t <=? 27 then 2 else 3)%nat.
Proof.
  intros Hs Hs'. apply after_pas_S in Hs'.
  destruct Hs' as (s0 & H0 & _ & Hb). rewrite Hs in H0. injection H0 as <-.
  destruct (after_pas_counts _ _ _ _ _ _ _ Hs) as (Hpa & _).
  destruct (loop_body_inv _ _ _ _ _ _ Hb)
    as (_ & _ & _ & _ & _ & _ & _ & _ & _ & Hcp & _).
  rewrite opener_change in Hcp by (assert (Hi := opener_invariant _ _ Hs); lia).
  injection Hcp as Hcp _. rewrite Hcp, Hpa.
  replace (t + 1)%nat with (S t) by lia. reflexivity.
Qed.

End OpenerFirst.

(** C4. Opener first: the plate appearance number [t + 1], which begins in
    state [s], is pitched by role 1 exactly when it begins with fewer than 3
    outs; from the third out on it is pitched by role 2 up to the 27th plate
    appearance and by role 3 after it. Once role 1 has left it is never
    active again. *)
Theorem opener_first_rotation (rand : nat -> R)
    (pitchers_df hitters_df : list Row) (rng0 t : nat) (s s' : GameState) :
  after_pas rand pitchers_df hitters_df true rng0 t = Some s ->
  after_pas rand pitchers_df hitters_df true rng0 (S t) = Some s' ->
  current_pitcher s' =
    (if outs s <? 3 then 1 else if S t <=? 27 then 2 else 3)%nat /\
  forall (n : nat) (sn : GameState),
    (S t <= n)%nat ->
    after_pas rand pitchers_df hitters_df true rng0 n = Some sn ->
    current_pitcher s' <> 1%nat -> current_pitcher sn <> 1%nat.
Proof.
  intros Hs Hs'. split; [apply (opener_step _ _ _ _ _ _ _ Hs Hs')|].
  intros n sn Hn Hsn.
  rewrite (opener_step _ _ _ _ _ _ _ Hs Hs').
  destruct n as [|n]; [lia|].
  destruct (after_pas_prefix _ _ _ _ _ n _ _ Hsn) as (s0 & H0); [lia|].
  rewrite (opener_step _ _ _ _ _ _ _ H0 Hsn).
  assert (Hm := after_pas_outs_mono _ _ _ _ _ _ _ _ _ Hs H0 ltac:(lia)).
  destruct (Nat.ltb_spec (outs s) 3); [congruence|].
  destruct (Nat.ltb_spec (outs s0) 3); [lia|].
  intros _. destruct (S n <=? 27)%nat; lia.
Qed.

(** *** The starter-first branch *)

Section StarterFirst.

Variable rand : nat -> R.
Variables pitchers_df hitters_df : list Row.
Variable rng0 : nat.

#[local] Abbreviation after := (after_pas rand pitchers_df hitters_df false rng0).

Lemma starter_change_early (o pa m : nat) :
  (pa <= 24)%nat -> change_pitchers false o pa 2 m = (2%nat, m).
Proof.
  intros H. unfold change_pitchers.
  repeat (settle_tests; cbn [Nat.eqb]); reflexivity.
Qed.

Lemma starter_change_25 (o pa m : nat) :
  (24 < pa)%nat -> change_pitchers false o pa 2 m = (1%nat, o).
Proof.
  intros H. unfold change_pitchers.
  repeat (settle_tests; cbn [Nat.eqb]); reflexivity.
Qed.

Lemma starter_change_late (o pa cp m : nat) :
  (cp = 1 /\ o <= m + 3 \/ cp = 3 /\ m + 3 <= o)%nat ->
  change_pitchers false o pa cp m = ((if o <? m + 3 then 1 else 3)%nat, m).
Proof.
  intros H. unfold change_pitchers.
  destruct (Nat.ltb_spec o (m + 3));
    destruct H as [(-> & H) | (-> & H)]; try lia;
    repeat (settle_tests; cbn [Nat.eqb]); reflexivity.
Qed.

Lemma starter_invariant (t : nat) (s : GameState) :
  after t = Some s ->
  if (t <=? 24)%nat then current_pitcher s = 2%nat
  else
    exists s24, after 24 = Some s24 /\
      outs_at_pitching_change s = outs s24 /\
      (current_pitcher s = 1 /\ outs s <= outs s24 + 3 \/
       current_pitcher s = 3 /\ outs s24 + 3 <= outs s)%nat.
Proof.
  revert s. induction t as [|t IH]; intros s H.
  - cbn in H. injection H as <-. reflexivity.
  - apply after_pas_S in H. destruct H as (s0 & H0 & _ & Hb).
    destruct (after_pas_counts _ _ _ _ _ _ _ H0) as (Hpa & _).
    assert (Ho := loop_body_outs _ _ _ _ _ _ Hb).
    destruct (loop_body_inv _ _ _ _ _ _ Hb)
      as (_ & _ & _ & _ & _ & _ & _ & _ & _ & Hcp & _).
    specialize (IH _ H0). rewrite Hpa in Hcp. clear Hpa.
    destruct (Nat.leb_spec t 24) as [Ht|Ht].
    + rewrite IH in Hcp. destruct (Nat.leb_spec (S t) 24) as [Ht'|Ht'].
      * rewrite starter_change_early in Hcp by lia. congruence.
      * rewrite starter_change_25 in Hcp by lia. injection Hcp as Hc Hm.
        assert (t = 24)%nat by lia. subst t.
        exists s0. split; [assumption|]. split; [assumption|]. left. lia.
    + destruct (Nat.leb_spec (S t) 24); [lia|].
      destruct IH as (s24 & H24 & Hm & Hc).
      rewrite starter_change_late in Hcp by (rewrite Hm; lia).
      injection Hcp as Hc' Hm'. exists s24. rewrite Hm', Hc', Hm.
      split; [assumption|]. split; [reflexivity|].
      destruct (Nat.ltb_spec (outs s0) (outs s24 + 3)); lia.
Qed.

Lemma starter_step (t : nat) (s s' : GameState) :
  after t = Some s -> after (S t) = Some s' ->
  if (S t <=? 24)%nat then current_pitcher s' = 2%nat
  else
    exists s24, after 24 = Some s24 /\
      outs_at_pitching_change s' = outs s24 /\
      current_pitcher s' = (if outs s <? outs s24 + 3 then 1 else 3)%nat.
Proof.
  intros Hs Hs'. assert (Hi := starter_invariant _ _ Hs).
  assert (Hi' := starter_invariant _ _ Hs').
  apply after_pas_S in Hs'.
  destruct Hs' as (s0 & H0 & _ & Hb). rewrite Hs in H0. injection H0 as <-.
  destruct (after_pas_counts _ _ _ _ _ _ _ Hs) as (Hpa & _).
  destruct (loop_body_inv _ _ _ _ _ _ Hb)
    as (_ & _ & _ & _ & _ & _ & _ & _ & _ & Hcp & _).
  rewrite Hpa in Hcp. clear Hpa.
  destruct (Nat.leb_spec (S t) 24) as [Ht'|Ht']; [exact Hi'|].
  destruct Hi' as (s24 & H24 & Hm' & _). exists s24.
  split; [assumption|]. split; [assumption|].
  destruct (Nat.leb_spec t 24) as [Ht|Ht].
  - assert (t = 24)%nat by lia. subst t.
    rewrite Hs in H24. injection H24 as <-.
    rewrite Hi, starter_change_25 in Hcp by lia. injection Hcp as Hc _.
    rewrite Hc. destruct (Nat.ltb_spec (outs s) (outs s + 3)); [reflexivity | lia].
  - destruct Hi as (s24' & H24' & Hm & Hc).
    assert (s24' = s24) by congruence. subst s24'.
    rewrite starter_change_late in Hcp by (rewrite Hm; lia).
    injection Hcp as Hc' _. rewrite Hc', Hm. reflexivity.
Qed.

(** When each of the first 24 plate appearances is an out, role 3 never
    pitches. *)
Lemma perfect_starter_never_bullpen (s24 : GameState) :
  after 24 = Some s24 -> outs s24 = 24%nat ->
  forall (t : nat) (s : GameState),
    after t = Some s ->
    current_pitcher s = (if t <=? 24 then 2 else 1)%nat.
Proof.
  intros H24 Ho t s Hs. destruct t as [|t].
  - cbn in Hs. injection Hs as <-. reflexivity.
  - destruct (after_pas_prefix _ _ _ _ _ t _ _ Hs) as (s0 & H0); [lia|].
    assert (Hstep := starter_step _ _ _ H0 Hs).
    destruct (Nat.leb_spec (S t) 24); [assumption|].
    destruct Hstep as (s24' & H24' & _ & Hc).
    assert (s24' = s24) by congruence. subst s24'.
    rewrite Hc. assert (Hs' := Hs). apply after_pas_S in Hs'.
    destruct Hs' as (s1 & H1 & Hlt & _).
    assert (s1 = s0) by congruence. subst s1.
    destruct (Nat.ltb_spec (outs s0) (outs s24 + 3)); [reflexivity | lia].
Qed.

End StarterFirst.

(** C3, amended. Starter first: role 2 pitches the first 24 plate
    appearances; the 25th switches to role 1 and records the out count at
    that moment (the out count after 24 plate appearances); from then on a
    plate appearance is pitched by role 1 while it begins with fewer than 3
    outs more than the marker, and by role 3 afterwards; role 2 never
    returns. A game that terminates ends with role 3 active exactly when
    the marker is at most 23, and with role 1 active when it is 24. *)
Theorem starter_first_rotation (rand : nat -> R)
    (pitchers_df hitters_df : list Row) (rng0 : nat) :
  (forall (t : nat) (s s' : GameState),
     after_pas rand pitchers_df hitters_df false rng0 t = Some s ->
     after_pas rand pitchers_df hitters_df false rng0 (S t) = Some s' ->
     if (S t <=? 24)%nat then current_pitcher s' = 2%nat
     else
       exists s24,
         after_pas rand pitchers_df hitters_df false rng0 24 = Some s24 /\
         outs_at_pitching_change s' = outs s24 /\
         current_pitcher s' = (if outs s <? outs s24 + 3 then 1 else 3)%nat) /\
  (forall (fuel : nat) (sf : GameState),
     while_loop rand pitchers_df hitters_df false fuel
       (initial_state false rng0) = Ok sf ->
     exists s24,
       after_pas rand pitchers_df hitters_df false rng0 24 = Some s24 /\
       current_pitcher sf = (if outs s24 <=? 23 then 3 else 1)%nat).
Proof.
  split; [apply starter_step|].
  intros fuel sf Hl.
  destruct (while_loop_after_pas rand pitchers_df hitters_df false rng0
              fuel 0 _ sf eq_refl Hl) as (n & _ & Hn & Ho).
  cbn [Nat.add] in Hn.
  destruct (after_pas_counts _ _ _ _ _ _ _ Hn) as (_ & _ & Hn27 & Ho27).
  destruct n as [|n]; [lia|].
  destruct (after_pas_prefix _ _ _ _ _ n _ _ Hn) as (s0 & H0); [lia|].
  assert (Hstep := starter_step _ _ _ _ _ _ _ H0 Hn).
  destruct (Nat.leb_spec (S n) 24); [lia|].
  destruct Hstep as (s24 & H24 & _ & Hc). exists s24. split; [assumption|].
  assert (Hn' := Hn). apply after_pas_S in Hn'.
  destruct Hn' as (s1 & H1 & Hlt & Hb).
  assert (s1 = s0) by congruence. subst s1.
  apply loop_body_outs in Hb.
  rewrite Hc.
  destruct (Nat.ltb_spec (outs s0) (outs s24 + 3));
    destruct (Nat.leb_spec (outs s24) 23); lia.
Qed.

Lemma scenario_strikeout_game (using_opener : bool) (t : nat) :
  (t <= 27)%nat ->
  exists s,
    after_pas (always 0) scenario_pitchers scenario_hitters using_opener 0 t
      = Some s /\
    outs s = t.
Proof.
  apply strikeout_game.
  - apply valid_roster_uniform, positive_scenario.
  - apply valid_roster_uniform, positive_scenario.
  - reflexivity.
  - intros h p Hh Hp. rewrite (in_roster _ _ _ Hh), (in_roster _ _ _ Hp).
    cbn [double_pct scenario_profile]. lra.
Qed.

Lemma scenario_strikeout_game_over (using_opener : bool) :
  exists sf,
    while_loop (always 0) scenario_pitchers scenario_hitters using_opener 27
      (initial_state using_opener 0) = Ok sf /\
    after_pas (always 0) scenario_pitchers scenario_hitters using_opener 0 27
      = Some sf.
Proof.
  destruct (scenario_strikeout_game using_opener 27) as (sf & Hsf & Ho); [lia|].
  exists sf. split; [|assumption].
  apply (after_pas_while_loop (always 0) scenario_pitchers scenario_hitters
           using_opener 0 27 27 0); auto; lia.
Qed.

(** C3, as stated, fails: in the scenario game where every plate
    appearance is a strikeout the game terminates and role 3 is never the
    active pitcher. *)
Lemma perfect_starter_game_has_no_bullpen :
  (exists result,
     sim_game (always 0) scenario_pitchers scenario_hitters false 27 0
       = Ok result) /\
  forall (t : nat) (s : GameState),
    after_pas (always 0) scenario_pitchers scenario_hitters false 0 t = Some s ->
    current_pitcher s <> 3%nat.
Proof.
  split.
  - destruct (scenario_strikeout_game_over false) as (sf & Hl & _).
    unfold sim_game. rewrite Hl. cbn [bind]. eauto.
  - intros t s Hs.
    destruct (scenario_strikeout_game false 24) as (s24 & H24 & Ho); [lia|].
    rewrite (perfect_starter_never_bullpen _ _ _ _ s24 H24 Ho t s Hs).
    destruct (t <=? 24)%nat; lia.
Qed.

(** C10. Starter first: in any game whose first 24 plate appearances are
    all outs, role 3 is never the active pitcher and a terminating run ends
    with role 1 active; the all-strikeout scenario game is such a game, and
    it terminates. *)
Theorem bullpen_may_never_pitch :
  (forall (rand : nat -> R) (pitchers_df hitters_df : list Row) (rng0 : nat)
          (s24 : GameState),
     after_pas rand pitchers_df hitters_df false rng0 24 = Some s24 ->
     outs s24 = 24%nat ->
     (forall (t : nat) (s : GameState),
        after_pas rand pitchers_df hitters_df false rng0 t = Some s ->
        current_pitcher s <> 3%nat) /\
     (forall (fuel : nat) (sf : GameState),
        while_loop rand pitchers_df hitters_df false fuel
          (initial_state false rng0) = Ok sf ->
        current_pitcher sf = 1%nat)) /\
  (exists s24 sf,
     after_pas (always 0) scenario_pitchers scenario_hitters false 0 24
       = Some s24 /\
     outs s24 = 24%nat /\
     while_loop (always 0) scenario_pitchers scenario_hitters false 27
       (initial_state false 0) = Ok sf /\
     outs sf = 27%nat /\
     current_pitcher sf = 1%nat).
Proof.
  split.
  - intros rand pitchers_df hitters_df rng0 s24 H24 Ho. split.
    + intros t s Hs.
      rewrite (perfect_starter_never_bullpen _ _ _ _ s24 H24 Ho t s Hs).
      destruct (t <=? 24)%nat; lia.
    + intros fuel sf Hl.
      destruct (while_loop_after_pas rand pitchers_df hitters_df false rng0
                  fuel 0 _ sf eq_refl Hl) as (n & _ & Hn & Ho27).
      cbn [Nat.add] in Hn.
      destruct (after_pas_counts _ _ _ _ _ _ _ Hn) as (_ & _ & Hn27 & _).
      rewrite (perfect_starter_never_bullpen _ _ _ _ s24 H24 Ho n sf Hn).
      destruct (Nat.leb_spec n 24); [lia | reflexivity].
  - destruct (scenario_strikeout_game false 24) as (s24 & H24 & Ho); [lia|].
    destruct (scenario_strikeout_game_over false) as (sf & Hl & Hsf).
    destruct (scenario_strikeout_game false 27) as (sf' & Hsf' & Ho'); [lia|].
    assert (sf' = sf) by congruence. subst sf'.
    exists s24, sf. repeat split; auto.
    rewrite (perfect_starter_never_bullpen _ _ _ _ s24 H24 Ho 27 sf Hsf).
    reflexivity.
Qed.

Lemma opener_first_rotation_witness :
  exists s s',
    after_pas (always 0) scenario_pitchers scenario_hitters true 0 3 = Some s /\
    after_pas (always 0) scenario_pitchers scenario_hitters true 0 4 = Some s' /\
    outs s = 3%nat /\
    current_pitcher s' =
      (if outs s <? 3 then 1 else if 4 <=? 27 then 2 else 3)%nat /\
    forall (n : nat) (sn : GameState),
      (4 <= n)%nat ->
      after_pas (always 0) scenario_pitchers scenario_hitters true 0 n
        = Some sn ->
      current_pitcher s' <> 1%nat -> current_pitcher sn <> 1%nat.
Proof.
  destruct (scenario_strikeout_game true 3) as (s & Hs & Ho); [lia|].
  destruct (scenario_strikeout_game true 4) as (s' & Hs' & _); [lia|].
  exists s, s'. split; [exact Hs|]. split; [exact Hs'|]. split; [exact Ho|].
  exact (opener_first_rotation (always 0) scenario_pitchers scenario_hitters
           0 3 s s' Hs Hs').
Defined.

Lemma sim_game_ends_at_27_outs_witness :
  exists sf,
    (forall fuel', (27 <= fuel')%nat ->
       while_loop (always 0) scenario_pitchers scenario_hitters true fuel'
         (initial_state true 0) = Ok sf) /\
    after_pas (always 0) scenario_pitchers scenario_hitters true 0
      (total_plate_apps sf) = Some sf /\
    outs sf = 27%nat /\
    (27 <= total_plate_apps sf <= 27)%nat.
Proof.
  destruct (sim_game_ends_at_27_outs (always 0) scenario_pitchers
              scenario_hitters true 0 27
              (valid_roster_uniform 3 _ positive_scenario)
              (valid_roster_uniform 9 _ positive_scenario))
    as [(_ & s & Hs & Hlt) | H].
  - exfalso.
    destruct (scenario_strikeout_game true 27) as (s' & Hs' & Ho); [lia|].
    rewrite Hs in Hs'. injection Hs' as <-. lia.
  - exact H.
Defined.

(** ** The batch runner *)

Lemma sum_from_ext (f g : nat -> R) (n : nat) :
  forall lo : nat,
    (forall i, (lo <= i < lo + n)%nat -> f i = g i) ->
    sum_from f lo n = sum_from g lo n.
Proof.
  induction n as [|n IH]; intros lo H; cbn [sum_from]; [reflexivity|].
  rewrite (H lo) by lia. rewrite (IH (S lo)); [reflexivity|].
  intros i Hi. apply H. lia.
Qed.

Lemma sum_from_plus (f g : nat -> R) (n : nat) :
  forall lo : nat,
    sum_from (fun i => f i + g i) lo n = sum_from f lo n + sum_from g lo n.
Proof.
  induction n as [|n IH]; intros lo; cbn [sum_from]; [lra|].
  rewrite IH. lra.
Qed.

Lemma sum_from_div (f : nat -> R) (d : R) (n : nat) :
  forall lo : nat, sum_from (fun i => f i / d) lo n = sum_from f lo n / d.
Proof.
  induction n as [|n IH]; intros lo; cbn [sum_from].
  - unfold Rdiv. lra.
  - rewrite IH. unfold Rdiv. lra.
Qed.

Lemma sum_from_zero (n : nat) :
  forall lo : nat, sum_from (fun _ => 0) lo n = 0.
Proof. induction n as [|n IH]; intros lo; cbn [sum_from]; [|rewrite IH]; lra. Qed.

Lemma sum_from_delta (k : nat) (v : R) (n : nat) :
  forall lo : nat,
    sum_from (fun i => if (i =? k)%nat then v else 0) lo n =
    if ((lo <=? k) && (k <? lo + n))%nat then v else 0.
Proof.
  induction n as [|n IH]; intros lo; cbn [sum_from].
  - destruct (Nat.leb_spec lo k), (Nat.ltb_spec k (lo + 0)); cbn; try lra; lia.
  - rewrite IH.
    destruct (Nat.eqb_spec lo k), (Nat.leb_spec lo k), (Nat.leb_spec (S lo) k),
      (Nat.ltb_spec k (S lo + n)), (Nat.ltb_spec k (lo + S n));
      cbn; try lra; lia.
Qed.

Lemma grid_sum_zeros : grid_sum zeros = 0.
Proof.
  unfold grid_sum. rewrite (sum_from_ext _ (fun _ => 0)).
  - apply sum_from_zero.
  - intros c _. unfold column_sum, zeros. apply sum_from_zero.
Qed.

Lemma grid_sum_add (a b : Grid) :
  grid_sum (grid_add a b) = grid_sum a + grid_sum b.
Proof.
  unfold grid_sum. rewrite <- sum_from_plus. apply sum_from_ext.
  intros c _. unfold column_sum, grid_add. apply sum_from_plus.
Qed.

Lemma grid_sum_div (a : Grid) (d : R) :
  grid_sum (grid_div a d) = grid_sum a / d.
Proof.
  unfold grid_sum. rewrite <- sum_from_div. apply sum_from_ext.
  intros c _. unfold column_sum, grid_div. apply sum_from_div.
Qed.

Lemma grid_sum_loc_add (df : Grid) (row col : nat) (v : R) :
  (row < 9)%nat -> (1 <= col <= 9)%nat ->
  grid_sum (loc_add df row col v) = grid_sum df + v.
Proof.
  intros Hr Hc. unfold grid_sum.
  rewrite (sum_from_ext _
             (fun c => column_sum df c + (if (c =? col)%nat then v else 0))).
  - rewrite sum_from_plus, sum_from_delta.
    destruct (Nat.leb_spec 1 col), (Nat.ltb_spec col (1 + 9)); cbn; try lra; lia.
  - intros c _. unfold column_sum, loc_add, at_set.
    destruct (Nat.eqb_spec c col) as [->|Hne].
    + rewrite (sum_from_ext _
                 (fun r => df r col + (if (r =? row)%nat then v else 0))).
      * rewrite sum_from_plus, sum_from_delta.
        destruct (Nat.leb_spec 0 row), (Nat.ltb_spec row (0 + 9)); cbn; try lra; lia.
      * intros r _. destruct (Nat.eqb_spec r row) as [->|]; cbn; lra.
    + rewrite Rplus_0_r. apply sum_from_ext. intros r _.
      rewrite andb_false_r. reflexivity.
Qed.

Section BatchFacts.

Variable rand : nat -> R.
Variables pitchers_df hitters_df : list Row.
Variable using_opener : bool.
Variable fuel : nat.

#[local] Abbreviation games := (games_loop rand pitchers_df hitters_df using_opener fuel).
#[local] Abbreviation play := (play_games rand pitchers_df hitters_df using_opener fuel).

(** The running sums of the loop over the games, from the list of the
    games. *)
Lemma games_loop_play_games (n : nat) :
  forall (sum_rc sum_pa : Grid) (rng0 : nat),
    games n sum_rc sum_pa rng0 =
    '(gs, rng1) <- play n rng0 ;;
    Ok (fold_left (fun acc g => grid_add acc (fst g)) gs sum_rc,
        fold_left (fun acc g => grid_add acc (snd g)) gs sum_pa,
        rng1).
Proof.
  induction n as [|n IH]; intros sum_rc sum_pa rng0;
    cbn [games_loop play_games bind]; [reflexivity|].
  destruct (sim_game _ _ _ _ _ _) as [[[rc pa] rng1]| |]; cbn [bind];
    try reflexivity.
  rewrite IH.
  destruct (play n rng1) as [[gs rng2]| |]; cbn [bind]; reflexivity.
Qed.

Lemma play_games_length (n : nat) :
  forall (rng0 rng1 : nat) (gs : list (Grid * Grid)),
    play n rng0 = Ok (gs, rng1) -> length gs = n.
Proof.
  induction n as [|n IH]; intros rng0 rng1 gs; cbn [play_games].
  - intros [= <- _]. reflexivity.
  - destruct (sim_game _ _ _ _ _ _) as [[[rc pa] rng']| |]; cbn [bind];
      try discriminate.
    destruct (play n rng') as [[gs' rng2]| |] eqn:Hp; cbn [bind];
      try discriminate.
    intros [= <- _]. cbn. f_equal. eapply IH. exact Hp.
Qed.

End BatchFacts.


Lemma fold_add_cell (gs : list (Grid * Grid)) (r c : nat) :
  forall a : Grid,
    fold_left (fun acc g => grid_add acc (fst g)) gs a r c =
    a r c + fold_right (fun g acc => fst g r c + acc) 0 gs.
Proof.
  induction gs as [|g gs IH]; intros a; cbn [fold_left fold_right].
  - lra.
  - rewrite IH. unfold grid_add. apply Rplus_assoc.
Qed.



(** C9, amended. [simulation] hands its caller one number, the total over
    the 81 cells of the averaged runs grid (the cell-by-cell mean of the
    runs grids of the games); the averaged runs grid and the averaged
    appearance grid stay local to it, and the appearance grids play no part
    in what is returned. *)
Theorem simulation_returns_only_the_total (rand : nat -> R) (fuel : nat)
    (pitchers_df hitters_df : list Row) (using_opener : bool)
    (sample_size : nat) (rng0 : nat) :
  simulation rand fuel pitchers_df hitters_df using_opener sample_size rng0 =
  ('(games, rng1) <-
     play_games rand (sort_values pitchers_df) (sort_values hitters_df)
       using_opener fuel sample_size rng0 ;;
   Ok (grid_sum (mean_runs_grid games), rng1)).
Proof.
  unfold simulation, simulation_locals.
  rewrite games_loop_play_games.
  destruct (play_games _ _ _ _ _ _ _) as [[gs rng1]| |] eqn:Hp; cbn [bind];
    try reflexivity.
  f_equal. f_equal.
  unfold grid_sum. apply sum_from_ext. intros c _.
  unfold column_sum. apply sum_from_ext. intros r _.
  unfold grid_div, mean_runs_grid.
  rewrite fold_add_cell. unfold zeros.
  rewrite (play_games_length _ _ _ _ _ _ _ _ _ Hp). unfold Rdiv. lra.
Qed.

Lemma sum_from_snoc (f : nat -> R) (n : nat) :
  forall lo : nat, sum_from f lo (S n) = sum_from f lo n + f (lo + n)%nat.
Proof.
  induction n as [|n IH]; intros lo.
  - cbn [sum_from]. rewrite Nat.add_0_r. lra.
  - change (sum_from f lo (S (S n))) with (f lo + sum_from f (S lo) (S n)).
    rewrite IH. cbn [sum_from].
    replace (S lo + n)%nat with (lo + S n)%nat by lia. lra.
Qed.

Section Ledger.

Variable rand : nat -> R.
Variables pitchers_df hitters_df : list Row.
Variable using_opener : bool.
Variable rng0 : nat.
Hypothesis valid_pitchers : valid_roster 3 pitchers_df.
Hypothesis valid_hitters : valid_roster 9 hitters_df.

#[local] Abbreviation after :=
  (after_pas rand pitchers_df hitters_df using_opener rng0).

Lemma after_pas_position (t : nat) (s : GameState) :
  after t = Some s -> (position_in_order s mod 9 = t mod 9)%nat.
Proof.
  revert s. induction t as [|t IH]; intros s H.
  - cbn in H. injection H as <-. reflexivity.
  - apply after_pas_S in H. destruct H as (s0 & H0 & _ & Hb).
    destruct (loop_body_inv _ _ _ _ _ _ Hb)
      as (_ & _ & _ & _ & _ & _ & _ & _ & Hpos & _).
    rewrite Hpos, (IH _ H0).
    replace (S t) with (t + 1)%nat by lia.
    rewrite (Nat.Div0.add_mod t 1 9). reflexivity.
Qed.

(** The entry a plate appearance makes in the runs grid. *)
Lemma pa_ledger (t : nat) (s s' : GameState) :
  after t = Some s -> after (S t) = Some s' ->
  exists hitter pitcher : Row,
    nth_error hitters_df (t mod 9) = Some hitter /\
    In pitcher pitchers_df /\
    sim_rc_per_hitter_per_inning s' =
      loc_add (sim_rc_per_hitter_per_inning s) (outs s / 3) (t mod 9 + 1)
        (expected_runs (to_dict hitter) (to_dict pitcher)).
Proof.
  intros Hs Hs'. apply after_pas_S in Hs'.
  destruct Hs' as (s0 & H0 & _ & Hb). rewrite Hs in H0. injection H0 as <-.
  destruct (loop_body_inv _ _ _ _ _ _ Hb)
    as (h & p & o & e & Hh & Hp & Hsim & _ & _ & _ & _ & _ & Hrc & _).
  rewrite (after_pas_position _ _ Hs) in Hh, Hrc.
  replace (t mod 9 + 1 - 1)%nat with (t mod 9)%nat in Hh by lia.
  replace (outs s / 3 + 1 - 1)%nat with (outs s / 3)%nat in Hrc by lia.
  unfold iloc in Hh. destruct (nth_error hitters_df (t mod 9)) as [h'|] eqn:Hh';
    [|discriminate]. injection Hh as ->.
  unfold loc in Hp.
  destruct (nth_error pitchers_df (current_pitcher s' - 1)) as [p'|] eqn:Hp';
    [|discriminate]. injection Hp as ->.
  exists h, p. split; [reflexivity|]. split; [eapply nth_error_In; eauto|].
  destruct valid_pitchers as [_ Hfp], valid_hitters as [_ Hfh].
  rewrite Forall_forall in Hfp, Hfh.
  rewrite (sim_plate_app_draw9 _ _ _ _ _
             (plate_app_locals_Ok _ _ (Hfh _ (nth_error_In _ _ Hh'))
                (Hfp _ (nth_error_In _ _ Hp')))) in Hsim.
  injection Hsim as _ <-. exact Hrc.
Qed.

(** Against pitchers who all have the profile [p], the runs grid of the
    first [t] plate appearances totals [lineup_runs]. *)
Lemma runs_total_uniform_pitchers (p : Profile) (t : nat) (s : GameState) :
  (forall pitcher, In pitcher pitchers_df -> to_dict pitcher = p) ->
  after t = Some s ->
  grid_sum (sim_rc_per_hitter_per_inning s) = lineup_runs hitters_df p t.
Proof.
  intros Hp. revert s. induction t as [|t IH]; intros s Hs.
  - cbn in Hs. injection Hs as <-. cbn. apply grid_sum_zeros.
  - destruct (after_pas_prefix _ _ _ _ _ t _ _ Hs) as (s0 & H0); [lia|].
    destruct (pa_ledger _ _ _ H0 Hs) as (h & pi & Hh & Hpi & Hrc).
    assert (Hs' := Hs). apply after_pas_S in Hs'.
    destruct Hs' as (s1 & H1 & Hlt & _).
    assert (s1 = s0) by congruence. subst s1.
    rewrite Hrc, grid_sum_loc_add.
    + rewrite (IH _ H0). unfold lineup_runs. rewrite sum_from_snoc.
      cbn [Nat.add]. rewrite Hh, (Hp _ Hpi). reflexivity.
    + apply Nat.Div0.div_lt_upper_bound. lia.
    + assert (t mod 9 < 9)%nat by (apply Nat.mod_upper_bound; lia). lia.
Qed.

(** In a game where every plate appearance so far was an out, the cell of
    the first inning and the first slot holds the runs of the first plate
    appearance. *)
Lemma first_cell_uniform_pitchers (p : Profile) (t : nat) (s : GameState) :
  (forall pitcher, In pitcher pitchers_df -> to_dict pitcher = p) ->
  after (S t) = Some s -> outs s = S t ->
  exists hitter,
    nth_error hitters_df 0 = Some hitter /\
    sim_rc_per_hitter_per_inning s 0%nat 1%nat =
    0 + expected_runs (to_dict hitter) p.
Proof.
  intros Hp. revert s. induction t as [|t IH]; intros s Hs Ho.
  - destruct (pa_ledger 0 _ _ eq_refl Hs) as (h & pi & Hh & Hpi & Hrc).
    exists h. split; [exact Hh|].
    rewrite Hrc, (Hp _ Hpi). reflexivity.
  - destruct (after_pas_prefix _ _ _ _ _ (S t) _ _ Hs) as (s0 & H0); [lia|].
    destruct (pa_ledger _ _ _ H0 Hs) as (h & pi & Hh & Hpi & Hrc).
    assert (Hs' := Hs). apply after_pas_S in Hs'.
    destruct Hs' as (s1 & H1 & Hlt & Hb).
    assert (s1 = s0) by congruence. subst s1.
    apply loop_body_outs in Hb.
    destruct (after_pas_counts _ _ _ _ _ _ _ H0) as (_ & _ & Hle & _).
    assert (Ho0 : outs s0 = S t) by lia.
    destruct (IH _ H0 Ho0) as (h1 & Hh1 & Hcell).
    exists h1. split; [exact Hh1|].
    rewrite Hrc. unfold loc_add, at_set.
    destruct (Nat.eqb_spec 0 (outs s0 / 3)) as [Hrow|Hrow];
      destruct (Nat.eqb_spec 1 (S t mod 9 + 1)) as [Hcol|Hcol];
      cbn [andb]; try exact Hcell.
    exfalso. rewrite Ho0 in Hrow.
    assert (S t < 3)%nat.
    { destruct (Nat.lt_ge_cases (S t) 3) as [|Hge]; [assumption|].
      assert (1 <= S t / 3)%nat by (apply Nat.div_le_lower_bound; lia). lia. }
    rewrite Nat.mod_small in Hcol by lia. lia.
Qed.

End Ledger.

Lemma sorted_scenario_pitchers : sort_values scenario_pitchers = scenario_pitchers.
Proof. reflexivity. Qed.

Lemma sorted_lineup_a : sort_values lineup_a = lineup_a.
Proof. reflexivity. Qed.

Lemma sorted_lineup_b : sort_values lineup_b = lineup_b.
Proof. reflexivity. Qed.

Lemma positive_doubles : positive_rates doubles_profile.
Proof. unfold positive_rates, doubles_profile; cbn; repeat split; lra. Qed.

Lemma valid_lineup_a : valid_roster 9 lineup_a.
Proof.
  split; [cbn; lia|].
  unfold lineup_a. cbn [map seq].
  repeat constructor; cbn [to_dict];
    first [apply positive_doubles | apply positive_scenario].
Qed.

Lemma valid_lineup_b : valid_roster 9 lineup_b.
Proof.
  split; [cbn; lia|].
  unfold lineup_b. cbn [map seq].
  repeat constructor; cbn [to_dict];
    first [apply positive_doubles | apply positive_scenario].
Qed.

(** One game of strikeouts against the scenario pitchers, through the batch
    runner: what [simulation] computes and what it returns. *)
Lemma strikeout_simulation (hitters_df : list Row) :
  valid_roster 9 hitters_df ->
  sort_values hitters_df = hitters_df ->
  (forall hitter, In hitter hitters_df -> 0.05 <= double_pct (to_dict hitter)) ->
  exists (sim_rc_df sim_pa_df : Grid) (first : Row),
    simulation_locals (always 0) 27 scenario_pitchers hitters_df true 1 0 =
      Ok (sim_rc_df, sim_pa_df, 27%nat) /\
    simulation (always 0) 27 scenario_pitchers hitters_df true 1 0 =
      Ok (grid_sum sim_rc_df, 27%nat) /\
    grid_sum sim_rc_df = lineup_runs hitters_df scenario_profile 27 /\
    nth_error hitters_df 0 = Some first /\
    sim_rc_df 0%nat 1%nat = expected_runs (to_dict first) scenario_profile.
Proof.
  intros Hv Hsort Hd.
  assert (Hvp := valid_roster_uniform 3 _ positive_scenario).
  fold scenario_pitchers in Hvp.
  assert (Hpp : forall pitcher, In pitcher scenario_pitchers ->
                  to_dict pitcher = scenario_profile)
    by (intros p Hp; apply (in_roster _ _ _ Hp)).
  destruct (strikeout_game (always 0) scenario_pitchers hitters_df true 0 27
              Hvp Hv) as (sf & Hsf & Ho); [reflexivity| |lia|].
  { intros h p Hh Hp. rewrite (Hpp _ Hp). specialize (Hd _ Hh).
    cbn [double_pct scenario_profile]. lra. }
  assert (Hl : while_loop (always 0) scenario_pitchers hitters_df true 27
                 (initial_state true 0) = Ok sf).
  { apply (after_pas_while_loop (always 0) scenario_pitchers hitters_df true
             0 27 27 0); auto; lia. }
  destruct (after_pas_counts _ _ _ _ _ _ _ Hsf) as (_ & Hrng & _).
  destruct (first_cell_uniform_pitchers (always 0) scenario_pitchers hitters_df
              true 0 Hvp Hv scenario_profile 26 sf Hpp Hsf Ho)
    as (h1 & Hh1 & Hcell).
  assert (Htot := runs_total_uniform_pitchers (always 0) scenario_pitchers
                    hitters_df true 0 Hvp Hv scenario_profile 27 sf Hpp Hsf).
  eexists _, _, h1.
  unfold simulation, simulation_locals.
  rewrite sorted_scenario_pitchers, Hsort.
  cbn [games_loop]. unfold sim_game. rewrite Hl. cbn [bind].
  rewrite Hrng. cbn [Nat.add].
  split; [reflexivity|]. split; [reflexivity|].
  split; [|split; [exact Hh1|]].
  - rewrite grid_sum_div, grid_sum_add, grid_sum_zeros, Htot.
    cbn [INR]. lra.
  - unfold grid_div, grid_add, zeros. rewrite Hcell. cbn [INR]. lra.
Qed.

Lemma lineup_runs_swap :
  lineup_runs lineup_a scenario_profile 27 =
  lineup_runs lineup_b scenario_profile 27.
Proof.
  unfold lineup_runs, lineup_a, lineup_b.
  cbn [sum_from map seq nth_error Nat.modulo Nat.divmod fst snd Nat.sub
       to_dict].
  lra.
Qed.

Lemma expected_runs_doubles :
  expected_runs doubles_profile scenario_profile <>
  expected_runs scenario_profile scenario_profile.
Proof.
  unfold expected_runs, dot_weights, code_probabilities.
  cbv zeta. cbn [fold_right fst snd LINEAR_WEIGHTS].
  cbn [k_pct bb_pct single_pct double_pct triple_pct hr_pct hbp_pct
       doubles_profile scenario_profile].
  lra.
Qed.

(** C9, as stated, fails: two calls that differ only by the lineup return
    the same number (and leave the random source at the same place) although
    their averaged runs grids differ, so the grids cannot be had from
    anything [simulation] gives back. *)
Lemma averaged_grids_are_not_returned :
  exists (v : R) (rc_a pa_a rc_b pa_b : Grid),
    simulation_locals (always 0) 27 scenario_pitchers lineup_a true 1 0 =
      Ok (rc_a, pa_a, 27%nat) /\
    simulation_locals (always 0) 27 scenario_pitchers lineup_b true 1 0 =
      Ok (rc_b, pa_b, 27%nat) /\
    simulation (always 0) 27 scenario_pitchers lineup_a true 1 0 =
      Ok (v, 27%nat) /\
    simulation (always 0) 27 scenario_pitchers lineup_b true 1 0 =
      Ok (v, 27%nat) /\
    rc_a 0%nat 1%nat <> rc_b 0%nat 1%nat.
Proof.
  destruct (strikeout_simulation lineup_a valid_lineup_a sorted_lineup_a)
    as (rc_a & pa_a & h_a & Hla & Hsa & Hta & Hha & Hca).
  { unfold lineup_a. cbn [map seq In]. intros h Hh.
    repeat (destruct Hh as [<- | Hh]; [cbn; lra|]). contradiction. }
  destruct (strikeout_simulation lineup_b valid_lineup_b sorted_lineup_b)
    as (rc_b & pa_b & h_b & Hlb & Hsb & Htb & Hhb & Hcb).
  { unfold lineup_b. cbn [map seq In]. intros h Hh.
    repeat (destruct Hh as [<- | Hh]; [cbn; lra|]). contradiction. }
  exists (lineup_runs lineup_a scenario_profile 27), rc_a, pa_a, rc_b, pa_b.
  split; [exact Hla|]. split; [exact Hlb|].
  split; [rewrite Hsa, Hta; reflexivity|].
  split; [rewrite Hsb, Htb, lineup_runs_swap; reflexivity|].
  rewrite Hca, Hcb.
  injection Hha as <-. injection Hhb as <-. cbn [to_dict].
  apply expected_runs_doubles.
Qed.

(** * Further properties of the code *)

(** ** More on the outcome model *)

Lemma math_log_nonpos (x : R) : ~ 0 < x -> math_log x = Raise ValueError.
Proof.
  intros H. unfold math_log.
  destruct (Rlt_dec 0 x); [contradiction | reflexivity].
Qed.

Lemma plate_app_locals_defined (hitter pitcher : Profile) :
  logged_rates_positive hitter -> logged_rates_positive pitcher ->
  exists probabilities rc,
    plate_app_locals hitter pitcher = Ok (probabilities, rc).
Proof.
  intros (h1 & h2 & h3 & h5 & h6 & h7) (p1 & p2 & p3 & p5 & p6 & p7).
  unfold plate_app_locals.
  rewrite !math_log_pos by assumption. cbn [bind]. eauto.
Qed.

Lemma plate_app_locals_undefined (hitter pitcher : Profile) :
  ~ (logged_rates_positive hitter /\ logged_rates_positive pitcher) ->
  plate_app_locals hitter pitcher = Raise ValueError.
Proof.
  intros H. unfold plate_app_locals, math_log.
  repeat (destruct (Rlt_dec 0 _); cbn [bind]; [|reflexivity]).
  exfalso. apply H. unfold logged_rates_positive. tauto.
Qed.

(** X1. [sim_plate_app] raises [ValueError] exactly when one of the six
    rates it takes the logarithm of (k, bb, single, triple, hr, hbp, of the
    hitter or of the pitcher) is not strictly positive; [double_pct] is
    never tested. In every other case it returns an outcome and a score,
    whatever the random value. *)
Theorem sim_plate_app_raises_on_nonpositive_rate
    (hitter pitcher : Profile) (u : R) :
  (logged_rates_positive hitter /\ logged_rates_positive pitcher ->
   exists simulated_outcome exp_runs_created,
     sim_plate_app hitter pitcher u = Ok (simulated_outcome, exp_runs_created)) /\
  (~ (logged_rates_positive hitter /\ logged_rates_positive pitcher) ->
   sim_plate_app hitter pitcher u = Raise ValueError).
Proof.
  split.
  - intros [Hh Hp].
    destruct (plate_app_locals_defined _ _ Hh Hp) as (probs & rc & H).
    eexists _, _. apply (sim_plate_app_draw9 _ _ _ _ u H).
  - intros H. unfold sim_plate_app.
    rewrite (plate_app_locals_undefined _ _ H). reflexivity.
Qed.

(** X2. The expected runs created is
    [-0.26 + 0.55 bb + 0.70 1b + 1.00 2b + 1.27 3b + 1.65 hr + 0.57 hbp]:
    the strikeout and error probabilities cancel against the residual, so
    replacing the strikeout rates of the hitter and of the pitcher by any
    other positive rates leaves the score unchanged. *)
Theorem strikeouts_do_not_score (hitter pitcher : Profile)
    (probabilities : list (Outcome * R)) (exp_runs_created : R) :
  plate_app_locals hitter pitcher = Ok (probabilities, exp_runs_created) ->
  (exists bb b1 b2 b3 hr hbp : R,
     get probabilities o_bb = Some bb /\ get probabilities o_1b = Some b1 /\
     get probabilities o_2b = Some b2 /\ get probabilities o_3b = Some b3 /\
     get probabilities o_hr = Some hr /\ get probabilities o_hbp = Some hbp /\
     exp_runs_created =
       -0.26 + 0.55 * bb + 0.70 * b1 + 1.00 * b2 + 1.27 * b3 + 1.65 * hr
       + 0.57 * hbp) /\
  forall kh kp : R, 0 < kh -> 0 < kp ->
    exists probabilities',
      plate_app_locals (with_k_pct hitter kh) (with_k_pct pitcher kp) =
      Ok (probabilities', exp_runs_created).
Proof.
  unfold plate_app_locals, math_log.
  repeat (destruct (Rlt_dec 0 _); cbn [bind]; [|discriminate]).
  cbv zeta. intros [= <- <-]. split.
  - do 6 eexists. cbn [get Outcome_eqb LINEAR_WEIGHTS].
    repeat (split; [reflexivity|]).
    forget_powers. lra.
  - intros kh kp Hkh Hkp. cbn [with_k_pct k_pct bb_pct single_pct double_pct
      triple_pct hr_pct hbp_pct].
    repeat (destruct (Rlt_dec 0 _); [|contradiction]). cbn [bind].
    eexists. f_equal. f_equal. cbn [LINEAR_WEIGHTS]. forget_powers. lra.
Qed.

Lemma strikeouts_do_not_score_witness :
  exists probabilities',
    plate_app_locals (with_k_pct scenario_profile 0.9)
      (with_k_pct scenario_profile 0.01) =
    Ok (probabilities',
        dot_weights (code_probabilities scenario_profile scenario_profile)).
Proof.
  refine (proj2 (strikeouts_do_not_score scenario_profile scenario_profile
                   _ _ (plate_app_locals_Ok _ _ positive_scenario
                          positive_scenario)) 0.9 0.01 _ _); lra.
Defined.

(** X3. When none of the nine derived weights is negative, the draw is the
    inverse of the cumulative distribution: for a random value [u] the
    category of rank [i] is returned exactly when [u] lies between the sum
    of the weights before it and that sum plus its own weight. *)
Theorem draw_follows_the_derived_distribution (hitter pitcher : Profile)
    (probabilities : list (Outcome * R)) (exp_runs_created u : R) :
  plate_app_locals hitter pitcher = Ok (probabilities, exp_runs_created) ->
  Forall (fun ow => 0 <= snd ow) probabilities ->
  0 <= u < 1 ->
  exists simulated_outcome,
    sim_plate_app hitter pitcher u = Ok (simulated_outcome, exp_runs_created) /\
    forall i : nat, (i < 9)%nat ->
      (nth_error (map fst probabilities) i = Some simulated_outcome <->
       sum_values (firstn i probabilities) <= u
       < sum_values (firstn (S i) probabilities)).
Proof.
  intros H Hpos Hu.
  exists (draw9 probabilities u). split; [apply sim_plate_app_draw9, H|].
  destruct (plate_app_locals_inv _ _ _ _ H)
    as (w0 & w1 & w2 & w3 & w4 & w5 & w6 & w7 & w8 & -> & Hsum & _ & _).
  repeat match goal with
         | H : Forall _ (_ :: _) |- _ => inversion_clear H
         end.
  cbn [snd] in *.
  intros i Hi. unfold draw9, sum_values.
  cbn [map fst snd accumulate accumulate_from nth].
  unfold tree9.
  do 9 (destruct i as [|i];
         [cbn [firstn map snd fold_right nth_error];
          repeat (destruct (Rlt_dec _ _)); cbn [nth];
          (split;
           [intros Heq; first [discriminate Heq | lra]
           |intros Hr; first [reflexivity | exfalso; lra]])|]).
  lia.
Qed.

Lemma exp_le_inv (y c : R) : 0 <= c -> y <= - c -> exp y <= / (1 + c).
Proof.
  intros Hc Hy. apply Rle_trans with (exp (- c)).
  - destruct (Req_dec y (- c)) as [->|]; [lra|].
    left. apply exp_increasing. lra.
  - rewrite exp_Ropp. apply Rinv_le_contravar; [lra|].
    apply exp_ineq1_le.
Qed.

Lemma ln_rare : ln (/ 2 ^ 20) < -10.
Proof.
  assert (0 < 2 ^ 20) by (apply pow_lt; lra).
  rewrite ln_Rinv by assumption. rewrite ln_pow by lra.
  replace (INR 20) with 20 by (simpl; lra).
  generalize ln_lt_2. lra.
Qed.

(** Between two [rare_profile] players every regression is small. *)
Lemma rare_regression_small (a b c : R) :
  0 <= a -> 0 <= b -> 12.3 <= (a + b) * 10 - c ->
  code_regression a b c (/ 2 ^ 20) (/ 2 ^ 20) <= 0.14.
Proof.
  intros Ha Hb Hc. unfold code_regression.
  apply Rle_trans with (/ (1 + 6.15)).
  2:{ apply Rmult_le_reg_l with (1 + 6.15); [lra|].
      rewrite Rinv_r by lra. lra. }
  apply exp_le_inv; [lra|].
  assert (Hr := ln_rare). assert (HL := ln_base_gt_half).
  set (r := ln (/ 2 ^ 20)) in *. set (L := ln 2.71828) in *.
  assert (Ha' : a * r <= a * -10) by (apply Rmult_le_compat_l; lra).
  assert (Hb' : b * r <= b * -10) by (apply Rmult_le_compat_l; lra).
  assert (HE : a * r + b * r + c <= -12.3) by lra.
  assert (HEL : (a * r + b * r + c) * L <= -12.3 * L).
  { apply Rmult_le_compat_r; lra. }
  lra.
Qed.

Lemma rare_profile_is_a_distribution :
  Forall (fun ow => 0 <= snd ow) (code_probabilities rare_profile rare_profile).
Proof.
  unfold code_probabilities. cbv zeta.
  cbn [k_pct bb_pct single_pct double_pct triple_pct hr_pct hbp_pct
       rare_profile].
  assert (Hk := rare_regression_small 0.9427 0.9254 1.5268).
  assert (Hbb := rare_regression_small 0.906 0.8644 1.9975).
  assert (H1 := rare_regression_small 1.01 1.017 1.943).
  assert (H3 := rare_regression_small 0.8435 0.8698 3.8809).
  assert (Hhr := rare_regression_small 0.9576 0.9268 3.2129).
  assert (Hhbp := rare_regression_small 0.8761 0.7623 2.995).
  assert (Pk := code_regression_pos 0.9427 0.9254 1.5268 (/ 2 ^ 20) (/ 2 ^ 20)).
  assert (Pbb := code_regression_pos 0.906 0.8644 1.9975 (/ 2 ^ 20) (/ 2 ^ 20)).
  assert (P1 := code_regression_pos 1.01 1.017 1.943 (/ 2 ^ 20) (/ 2 ^ 20)).
  assert (P3 := code_regression_pos 0.8435 0.8698 3.8809 (/ 2 ^ 20) (/ 2 ^ 20)).
  assert (Phr := code_regression_pos 0.9576 0.9268 3.2129 (/ 2 ^ 20) (/ 2 ^ 20)).
  assert (Phbp := code_regression_pos 0.8761 0.7623 2.995 (/ 2 ^ 20) (/ 2 ^ 20)).
  repeat constructor; cbn [snd]; lra.
Qed.

Lemma positive_rare : positive_rates rare_profile.
Proof.
  assert (0 < / 2 ^ 20) by (apply Rinv_0_lt_compat, pow_lt; lra).
  unfold positive_rates, rare_profile; cbn [k_pct bb_pct single_pct double_pct
    triple_pct hr_pct hbp_pct]. repeat split; try assumption; lra.
Qed.

Lemma draw_follows_the_derived_distribution_witness :
  exists simulated_outcome,
    sim_plate_app rare_profile rare_profile 0.5 =
      Ok (simulated_outcome,
          dot_weights (code_probabilities rare_profile rare_profile)) /\
    forall i : nat, (i < 9)%nat ->
      (nth_error (map fst (code_probabilities rare_profile rare_profile)) i
         = Some simulated_outcome <->
       sum_values (firstn i (code_probabilities rare_profile rare_profile))
         <= 0.5
       < sum_values (firstn (S i) (code_probabilities rare_profile rare_profile))).
Proof.
  apply (draw_follows_the_derived_distribution rare_profile rare_profile).
  - apply plate_app_locals_Ok; apply positive_rare.
  - apply rare_profile_is_a_distribution.
  - lra.
Defined.

(** ** More on the game simulator *)



(** X7. Role 2 faces at most 24 batters under either policy: opener first
    it pitches no plate appearance before the 4th nor after the 27th,
    starter first none after the 24th. *)
Theorem starter_faces_at_most_24_batters (rand : nat -> R)
    (pitchers_df hitters_df : list Row) (using_opener : bool)
    (rng0 t : nat) (s s' : GameState) :
  after_pas rand pitchers_df hitters_df using_opener rng0 t = Some s ->
  after_pas rand pitchers_df hitters_df using_opener rng0 (S t) = Some s' ->
  current_pitcher s' = 2%nat ->
  if using_opener then (4 <= S t <= 27)%nat else (S t <= 24)%nat.
Proof.
  intros Hs Hs' Hcp. destruct using_opener.
  - assert (Hstep := opener_step _ _ _ _ _ _ _ Hs Hs').
    destruct (after_pas_counts _ _ _ _ _ _ _ Hs) as (_ & _ & Ho & _).
    rewrite Hcp in Hstep.
    destruct (Nat.ltb_spec (outs s) 3); [discriminate|].
    destruct (Nat.leb_spec (S t) 27); [lia | discriminate].
  - assert (Hstep := starter_step _ _ _ _ _ _ _ Hs Hs').
    destruct (Nat.leb_spec (S t) 24); [assumption|].
    destruct Hstep as (s24 & _ & _ & Hc). rewrite Hcp in Hc.
    destruct (outs s <? outs s24 + 3)%nat; discriminate.
Qed.

Lemma starter_faces_at_most_24_batters_witness :
  exists s s',
    after_pas (always 0) scenario_pitchers scenario_hitters true 0 3 = Some s /\
    after_pas (always 0) scenario_pitchers scenario_hitters true 0 4 = Some s' /\
    current_pitcher s' = 2%nat /\
    (4 <= 4 <= 27)%nat.
Proof.
  destruct (scenario_strikeout_game true 3) as (s & Hs & Ho); [lia|].
  destruct (scenario_strikeout_game true 4) as (s' & Hs' & _); [lia|].
  assert (Hcp : current_pitcher s' = 2%nat).
  { rewrite (opener_step _ _ _ _ _ _ _ Hs Hs'), Ho. reflexivity. }
  exists s, s'. split; [exact Hs|]. split; [exact Hs'|]. split; [exact Hcp|].
  exact (starter_faces_at_most_24_batters (always 0) scenario_pitchers
           scenario_hitters true 0 3 s s' Hs Hs' Hcp).
Defined.

Section Batch.

Variable rand : nat -> R.
Variables pitchers_df hitters_df : list Row.
Variable using_opener : bool.
Variable fuel : nat.



End Batch.



(** *** Incomplete rosters *)

Section Incomplete.

Variable rand : nat -> R.
Variables pitchers_df hitters_df : list Row.
Variable using_opener : bool.
Variable rng0 : nat.

#[local] Abbreviation body :=
  (loop_body rand pitchers_df hitters_df using_opener).
#[local] Abbreviation loop :=
  (while_loop rand pitchers_df hitters_df using_opener).
#[local] Abbreviation after :=
  (after_pas rand pitchers_df hitters_df using_opener rng0).

(** The loop raises what the first failing iteration raises. *)
Lemma while_loop_raises (e : exn) (k : nat) :
  forall (fuel t : nat) (s sk : GameState),
    after t = Some s -> after (t + k) = Some sk ->
    (outs sk < 27)%nat -> body sk = Raise e -> (k < fuel)%nat ->
    loop fuel s = Raise e.
Proof.
  induction k as [|k IH]; intros fuel t s sk Ht Hk Ho Hb Hf.
  - rewrite Nat.add_0_r, Ht in Hk. injection Hk as <-.
    destruct fuel as [|fuel]; [lia|]. cbn [while_loop].
    destruct (Nat.ltb_spec (outs s) 27); [|lia]. rewrite Hb. reflexivity.
  - destruct fuel as [|fuel]; [lia|].
    destruct (after_pas_prefix _ _ _ _ _ (S t) _ _ Hk) as (s1 & H1); [lia|].
    assert (H1' := H1). apply after_pas_S in H1'.
    destruct H1' as (s0 & H0 & Hlt & Hb0).
    rewrite Ht in H0. injection H0 as <-.
    cbn [while_loop]. destruct (Nat.ltb_spec (outs s) 27); [|lia].
    rewrite Hb0. cbn [bind]. apply (IH fuel (S t) s1 sk); auto; [|lia].
    replace (S t + k)%nat with (t + S k)%nat by lia. exact Hk.
Qed.

Hypothesis valid_pitchers : valid_roster 3 pitchers_df.
Hypothesis valid_rows :
  Forall (fun r => positive_rates (to_dict r)) hitters_df.

(** An iteration raises [IndexError] when the slot at bat has no row, and
    succeeds otherwise. *)
Lemma loop_body_slot (s : GameState) :
  (1 <= current_pitcher s <= 3)%nat ->
  match nth_error hitters_df (position_in_order s mod 9) with
  | None => body s = Raise IndexError
  | Some _ => exists s', body s = Ok s'
  end.
Proof.
  intros Hcp. destruct valid_pitchers as [Hlp Hfp].
  unfold loop_body.
  assert (Hr := change_pitchers_range using_opener (outs s)
                  (total_plate_apps s + 1) (current_pitcher s)
                  (outs_at_pitching_change s) Hcp).
  destruct (change_pitchers _ _ _ _ _) as [cp m]. cbn [fst] in Hr.
  unfold iloc, loc.
  replace (position_in_order s mod 9 + 1 - 1)%nat
    with (position_in_order s mod 9)%nat by lia.
  destruct (nth_error hitters_df (position_in_order s mod 9))
    as [hitter|] eqn:Hh; [|reflexivity].
  destruct (nth_error pitchers_df (cp - 1)) as [pitcher|] eqn:Hp.
  2:{ apply nth_error_None in Hp. lia. }
  cbn [bind].
  assert (Hhin := nth_error_In _ _ Hh). assert (Hpin := nth_error_In _ _ Hp).
  rewrite Forall_forall in Hfp, valid_rows.
  rewrite (sim_plate_app_draw9 _ _ _ _ _
             (plate_app_locals_Ok _ _ (valid_rows _ Hhin) (Hfp _ Hpin))).
  cbn [bind]. eauto.
Qed.

Lemma short_lineup_bats_around (t : nat) :
  (t <= length hitters_df)%nat -> (length hitters_df < 9)%nat ->
  exists s, after t = Some s.
Proof.
  intros Ht Hlen. revert Ht.
  induction t as [|t IH]; intros Ht; [eexists; reflexivity|].
  destruct IH as (s & Hs); [lia|].
  assert (Hslot := loop_body_slot s (after_pas_pitcher_range _ _ _ _ _ _ _ Hs)).
  rewrite (after_pas_position _ _ _ _ _ _ _ Hs) in Hslot.
  rewrite Nat.mod_small in Hslot by lia.
  destruct (nth_error hitters_df t) eqn:Hn.
  - destruct Hslot as (s' & Hb). exists s'. apply after_pas_S.
    exists s. repeat split; auto.
    destruct (after_pas_counts _ _ _ _ _ _ _ Hs) as (_ & _ & Ho & _). lia.
  - apply nth_error_None in Hn. lia.
Qed.

End Incomplete.

(** X5. With fewer than nine hitters (all valid, and valid pitchers) the
    game is not refused at the start: it plays one plate appearance per
    hitter present and raises [IndexError] at the next one. *)
Theorem short_lineup_raises_IndexError (rand : nat -> R)
    (pitchers_df hitters_df : list Row) (using_opener : bool)
    (fuel rng0 : nat) :
  valid_roster 3 pitchers_df ->
  Forall (fun r => positive_rates (to_dict r)) hitters_df ->
  (length hitters_df < 9)%nat ->
  (length hitters_df < fuel)%nat ->
  sim_game rand pitchers_df hitters_df using_opener fuel rng0
    = Raise IndexError /\
  exists s,
    after_pas rand pitchers_df hitters_df using_opener rng0
      (length hitters_df) = Some s /\
    after_pas rand pitchers_df hitters_df using_opener rng0
      (S (length hitters_df)) = None.
Proof.
  intros Hp Hrows Hlen Hfuel.
  destruct (short_lineup_bats_around rand pitchers_df hitters_df using_opener
              rng0 Hp Hrows (length hitters_df)) as (s & Hs); [lia | lia |].
  assert (Hslot := loop_body_slot rand pitchers_df hitters_df using_opener
                     Hp Hrows s (after_pas_pitcher_range _ _ _ _ _ _ _ Hs)).
  rewrite (after_pas_position _ _ _ _ _ _ _ Hs) in Hslot.
  rewrite Nat.mod_small in Hslot by lia.
  assert (Hn : nth_error hitters_df (length hitters_df) = None)
    by (apply nth_error_None; lia).
  rewrite Hn in Hslot.
  destruct (after_pas_counts _ _ _ _ _ _ _ Hs) as (_ & _ & Ho & _).
  split.
  - unfold sim_game.
    rewrite (while_loop_raises rand pitchers_df hitters_df using_opener rng0
               IndexError (length hitters_df) fuel 0 _ s); auto.
    lia.
  - exists s. split; [exact Hs|].
    cbn [after_pas]. rewrite Hs.
    destruct (outs s <? 27)%nat; [rewrite Hslot|]; reflexivity.
Qed.

Lemma short_lineup_raises_IndexError_witness :
  sim_game (always 0) scenario_pitchers (roster 5 scenario_profile) false 27 0
    = Raise IndexError /\
  exists s,
    after_pas (always 0) scenario_pitchers (roster 5 scenario_profile) false 0
      (length (roster 5 scenario_profile)) = Some s /\
    after_pas (always 0) scenario_pitchers (roster 5 scenario_profile) false 0
      (S (length (roster 5 scenario_profile))) = None.
Proof.
  apply (short_lineup_raises_IndexError (always 0) scenario_pitchers
           (roster 5 scenario_profile) false 27 0).
  - apply valid_roster_uniform, positive_scenario.
  - apply (valid_roster_uniform 5 _ positive_scenario).
  - cbn. lia.
  - cbn. lia.
Defined.

(** X6. When the pitchers frame has no row for the role that starts the
    game (role 1 opener first, role 2 starter first), the first plate
    appearance raises [KeyError], whatever the rates. *)
Theorem missing_pitcher_raises_KeyError (rand : nat -> R)
    (pitchers_df hitters_df : list Row) (using_opener : bool)
    (fuel rng0 : nat) :
  hitters_df <> [] ->
  (length pitchers_df < (if using_opener then 1 else 2))%nat ->
  (1 <= fuel)%nat ->
  sim_game rand pitchers_df hitters_df using_opener fuel rng0 = Raise KeyError.
Proof.
  intros Hh Hp Hf. destruct fuel as [|fuel]; [lia|].
  destruct hitters_df as [|h hs]; [congruence|].
  unfold sim_game. cbn [while_loop initial_state outs Nat.ltb Nat.leb].
  unfold loop_body.
  cbn [outs total_plate_apps current_pitcher outs_at_pitching_change
       position_in_order Nat.add].
  destruct using_opener; cbn [change_pitchers Nat.eqb Nat.ltb Nat.leb andb
    Nat.add Nat.sub Nat.modulo Nat.divmod fst snd iloc nth_error bind];
    unfold loc.
  - destruct pitchers_df; [reflexivity | cbn in Hp; lia].
  - destruct pitchers_df as [|p0 [|p1 ps]]; [reflexivity | reflexivity |].
    cbn in Hp. lia.
Qed.

Lemma missing_pitcher_raises_KeyError_witness :
  sim_game (always 0) (roster 1 scenario_profile) scenario_hitters false 27 0
    = Raise KeyError.
Proof.
  apply (missing_pitcher_raises_KeyError (always 0) (roster 1 scenario_profile)
           scenario_hitters false 27 0).
  - discriminate.
  - cbn. lia.
  - lia.
Defined.

(** X14. Opener first, a game that terminates ends with role 2 active if
    it took exactly 27 plate appearances, and with role 3 active
    otherwise. *)
Theorem opener_first_final_pitcher (rand : nat -> R)
    (pitchers_df hitters_df : list Row) (fuel rng0 : nat) (sf : GameState) :
  while_loop rand pitchers_df hitters_df true fuel (initial_state true rng0)
    = Ok sf ->
  current_pitcher sf = (if total_plate_apps sf <=? 27 then 2 else 3)%nat.
Proof.
  intros Hl.
  destruct (while_loop_after_pas _ _ _ _ _ _ 0 _ sf eq_refl Hl)
    as (n & _ & Hn & Ho).
  cbn [Nat.add] in Hn.
  destruct (after_pas_counts _ _ _ _ _ _ _ Hn) as (Hpa & _ & Hle & Ho').
  destruct n as [|n]; [lia|].
  assert (Hn' := Hn). apply after_pas_S in Hn'.
  destruct Hn' as (s0 & H0 & Hlt & Hb). apply loop_body_outs in Hb.
  rewrite (opener_step _ _ _ _ _ _ _ H0 Hn), Hpa.
  destruct (Nat.ltb_spec (outs s0) 3); [lia | reflexivity].
Qed.

Lemma opener_first_final_pitcher_witness :
  exists sf,
    while_loop (always 0) scenario_pitchers scenario_hitters true 27
      (initial_state true 0) = Ok sf /\
    current_pitcher sf = (if total_plate_apps sf <=? 27 then 2 else 3)%nat.
Proof.
  destruct (scenario_strikeout_game_over true) as (sf & Hl & _).
  exists sf. split; [exact Hl|].
  exact (opener_first_final_pitcher (always 0) scenario_pitchers
           scenario_hitters 27 0 sf Hl).
Defined.

(** *** The two grids *)

Section Grids.

Variable rand : nat -> R.
Variables pitchers_df hitters_df : list Row.
Variable using_opener : bool.
Variable rng0 : nat.

#[local] Abbreviation after :=
  (after_pas rand pitchers_df hitters_df using_opener rng0).
#[local] Abbreviation batted :=
  (batted rand pitchers_df hitters_df using_opener rng0).

Lemma appearance_cell (t : nat) (s : GameState) :
  after t = Some s ->
  forall r c : nat,
    sim_pa_per_hitter_per_inning s r c = 1 /\ batted t r c \/
    sim_pa_per_hitter_per_inning s r c = 0 /\ ~ batted t r c.
Proof.
  revert s. induction t as [|t IH]; intros s Hs r c.
  - cbn in Hs. injection Hs as <-. right. split; [reflexivity|].
    intros (i & si & Hi & _). lia.
  - apply after_pas_S in Hs. destruct Hs as (s0 & H0 & Hlt & Hb).
    destruct (loop_body_inv _ _ _ _ _ _ Hb)
      as (_ & _ & _ & _ & _ & _ & _ & _ & _ & _ & _ & _ & _ & Hpa).
    rewrite (after_pas_position _ _ _ _ _ _ _ H0) in Hpa.
    replace (outs s0 / 3 + 1 - 1)%nat with (outs s0 / 3)%nat in Hpa by lia.
    rewrite Hpa. unfold at_set.
    destruct (Nat.eqb_spec r (outs s0 / 3)) as [Hr|Hr];
      destruct (Nat.eqb_spec c (t mod 9 + 1)) as [Hc|Hc]; cbn [andb].
    1:{ left. split; [reflexivity|]. exists t, s0. repeat split; auto. }
    all: destruct (IH _ H0 r c) as [(H1 & i & si & Hi & Hsi & Hri & Hci)
                                   | (Hz & Hn)];
      [left; split; [exact H1|]; exists i, si; repeat split; auto
      |right; split; [exact Hz|];
       intros (i & si & Hi & Hsi & Hri & Hci);
       destruct (Nat.eq_dec i t) as [->|Hne];
       [rewrite H0 in Hsi; injection Hsi as <-; congruence
       |apply Hn; exists i, si; repeat split; auto; lia]].
Qed.

Lemma batted_in_frame (t r c : nat) (s : GameState) :
  after t = Some s -> batted t r c -> (r < 9)%nat /\ (1 <= c <= 9)%nat.
Proof.
  intros Hs (i & si & Hi & Hsi & <- & <-).
  destruct (after_pas_prefix rand pitchers_df hitters_df using_opener rng0
              (S i) t s Hs) as (s1 & H1); [lia|].
  apply after_pas_S in H1. destruct H1 as (s0 & H0 & Hlt & _).
  assert (s0 = si) by congruence. subst s0.
  assert (i mod 9 < 9)%nat by (apply Nat.mod_upper_bound; lia).
  split; [apply Nat.Div0.div_lt_upper_bound; lia | lia].
Qed.

End Grids.

(** X8. Every cell of the appearance grid is 0 or 1: it is 1 exactly when
    some plate appearance so far was made in that inning by that slot, and
    such a cell lies inside the 9x9 frame. *)
Theorem appearance_grid_marks_who_batted (rand : nat -> R)
    (pitchers_df hitters_df : list Row) (using_opener : bool)
    (rng0 t : nat) (s : GameState) :
  after_pas rand pitchers_df hitters_df using_opener rng0 t = Some s ->
  forall r c : nat,
    (sim_pa_per_hitter_per_inning s r c = 1 /\
     batted rand pitchers_df hitters_df using_opener rng0 t r c /\
     (r < 9)%nat /\ (1 <= c <= 9)%nat)
    \/
    (sim_pa_per_hitter_per_inning s r c = 0 /\
     ~ batted rand pitchers_df hitters_df using_opener rng0 t r c).
Proof.
  intros Hs r c.
  destruct (appearance_cell _ _ _ _ _ _ _ Hs r c) as [(H1 & Hb) | H0].
  - left. split; [exact H1|]. split; [exact Hb|].
    apply (batted_in_frame _ _ _ _ _ _ _ _ _ Hs Hb).
  - right. exact H0.
Qed.

Lemma appearance_grid_marks_who_batted_witness :
  exists s,
    after_pas (always 0) scenario_pitchers scenario_hitters true 0 27 = Some s /\
    forall r c : nat,
      (sim_pa_per_hitter_per_inning s r c = 1 /\
       batted (always 0) scenario_pitchers scenario_hitters true 0 27 r c /\
       (r < 9)%nat /\ (1 <= c <= 9)%nat)
      \/
      (sim_pa_per_hitter_per_inning s r c = 0 /\
       ~ batted (always 0) scenario_pitchers scenario_hitters true 0 27 r c).
Proof.
  destruct (scenario_strikeout_game true 27) as (s & Hs & _); [lia|].
  exists s. split; [exact Hs|].
  exact (appearance_grid_marks_who_batted (always 0) scenario_pitchers
           scenario_hitters true 0 27 s Hs).
Defined.

(** X10. With valid rosters a plate appearance adds the expected runs
    created of its hitter (row [t mod 9]) against the active pitcher to one
    cell of the runs grid, the one of its inning and slot, inside the frame,
    and changes no other cell; the total of the grid grows by that
    amount. *)
Theorem runs_grid_ledger (rand : nat -> R)
    (pitchers_df hitters_df : list Row) (using_opener : bool)
    (rng0 t : nat) (s s' : GameState) :
  valid_roster 3 pitchers_df -> valid_roster 9 hitters_df ->
  after_pas rand pitchers_df hitters_df using_opener rng0 t = Some s ->
  after_pas rand pitchers_df hitters_df using_opener rng0 (S t) = Some s' ->
  exists hitter pitcher : Row,
    nth_error hitters_df (t mod 9) = Some hitter /\
    nth_error pitchers_df (current_pitcher s' - 1) = Some pitcher /\
    (outs s / 3 < 9)%nat /\
    (forall r c : nat,
       sim_rc_per_hitter_per_inning s' r c =
       if ((r =? outs s / 3) && (c =? t mod 9 + 1))%nat
       then sim_rc_per_hitter_per_inning s r c
            + expected_runs (to_dict hitter) (to_dict pitcher)
       else sim_rc_per_hitter_per_inning s r c) /\
    grid_sum (sim_rc_per_hitter_per_inning s') =
    grid_sum (sim_rc_per_hitter_per_inning s)
    + expected_runs (to_dict hitter) (to_dict pitcher).
Proof.
  intros Hvp Hvh Hs Hs'. apply after_pas_S in Hs'.
  destruct Hs' as (s0 & H0 & Hlt & Hb). rewrite Hs in H0. injection H0 as <-.
  destruct (loop_body_inv _ _ _ _ _ _ Hb)
    as (h & p & o & e & Hh & Hp & Hsim & _ & _ & _ & _ & _ & Hrc & _).
  rewrite (after_pas_position _ _ _ _ _ _ _ Hs) in Hh, Hrc.
  replace (t mod 9 + 1 - 1)%nat with (t mod 9)%nat in Hh by lia.
  replace (outs s / 3 + 1 - 1)%nat with (outs s / 3)%nat in Hrc by lia.
  unfold iloc in Hh. destruct (nth_error hitters_df (t mod 9)) as [h'|] eqn:Hh';
    [|discriminate]. injection Hh as ->.
  unfold loc in Hp.
  destruct (nth_error pitchers_df (current_pitcher s' - 1)) as [p'|] eqn:Hp';
    [|discriminate]. injection Hp as ->.
  destruct Hvp as [_ Hfp], Hvh as [_ Hfh].
  rewrite Forall_forall in Hfp, Hfh.
  rewrite (sim_plate_app_draw9 _ _ _ _ _
             (plate_app_locals_Ok _ _ (Hfh _ (nth_error_In _ _ Hh'))
                (Hfp _ (nth_error_In _ _ Hp')))) in Hsim.
  injection Hsim as _ <-.
  assert (Hrow : (outs s / 3 < 9)%nat)
    by (apply Nat.Div0.div_lt_upper_bound; lia).
  assert (Hcol : (t mod 9 < 9)%nat) by (apply Nat.mod_upper_bound; lia).
  exists h, p. split; [reflexivity|]. split; [reflexivity|].
  split; [exact Hrow|]. split.
  - intros r c. rewrite Hrc. unfold loc_add, at_set.
    destruct (Nat.eqb_spec r (outs s / 3)) as [->|];
      destruct (Nat.eqb_spec c (t mod 9 + 1)) as [->|]; reflexivity.
  - rewrite Hrc. apply grid_sum_loc_add; lia.
Qed.

Lemma runs_grid_ledger_witness :
  exists s s' (hitter pitcher : Row),
    after_pas (always 0) scenario_pitchers scenario_hitters true 0 3 = Some s /\
    after_pas (always 0) scenario_pitchers scenario_hitters true 0 4 = Some s' /\
    nth_error scenario_hitters (3 mod 9) = Some hitter /\
    nth_error scenario_pitchers (current_pitcher s' - 1) = Some pitcher /\
    grid_sum (sim_rc_per_hitter_per_inning s') =
    grid_sum (sim_rc_per_hitter_per_inning s)
    + expected_runs (to_dict hitter) (to_dict pitcher).
Proof.
  destruct (scenario_strikeout_game true 3) as (s & Hs & _); [lia|].
  destruct (scenario_strikeout_game true 4) as (s' & Hs' & _); [lia|].
  destruct (runs_grid_ledger (always 0) scenario_pitchers scenario_hitters
              true 0 3 s s'
              (valid_roster_uniform 3 _ positive_scenario)
              (valid_roster_uniform 9 _ positive_scenario) Hs Hs')
    as (h & p & Hh & Hp & _ & _ & Hsum).
  exists s, s', h, p. auto.
Defined.

(** *** How many cells of the appearance grid are marked *)



Section Marks.

Variable rand : nat -> R.
Variables pitchers_df hitters_df : list Row.
Variable using_opener : bool.
Variable rng0 : nat.

#[local] Abbreviation after :=
  (after_pas rand pitchers_df hitters_df using_opener rng0).





End Marks.



(** *** Pitchers with the same rates *)

Section SameRates.

Variable rand : nat -> R.
Variables pitchers_df hitters_df : list Row.
Variable p : Profile.
Hypothesis three_pitchers : (3 <= length pitchers_df)%nat.
Hypothesis same_rates :
  forall pitcher, In pitcher pitchers_df -> to_dict pitcher = p.






End SameRates.

(** *** The order of the rows *)

Lemma insert_by_order_comm (a b : Row) (l : list Row) :
  order a <> order b ->
  insert_by_order a (insert_by_order b l) =
  insert_by_order b (insert_by_order a l).
Proof.
  intros Hab. induction l as [|x l IH]; cbn [insert_by_order].
  - destruct (Z.leb_spec (order a) (order b)), (Z.leb_spec (order b) (order a));
      try reflexivity; lia.
  - destruct (Z.leb_spec (order b) (order x)), (Z.leb_spec (order a) (order x));
      cbn [insert_by_order];
      repeat match goal with
             | |- context [(?u <=? ?v)%Z] => destruct (Z.leb_spec u v)
             end; try reflexivity; try lia.
    rewrite IH. reflexivity.
Qed.

Lemma sort_values_permutation (l1 l2 : list Row) :
  Permutation l1 l2 -> NoDup (map order l1) ->
  sort_values l1 = sort_values l2.
Proof.
  unfold sort_values.
  induction 1 as [|x l l' Hp IH|x y l|l l' l'' H1 IH1 H2 IH2]; intros Hnd.
  - reflexivity.
  - cbn [fold_right]. rewrite IH; [reflexivity|].
    cbn [map] in Hnd. inversion Hnd; assumption.
  - cbn [fold_right]. apply insert_by_order_comm.
    cbn [map] in Hnd. inversion Hnd as [|? ? Hin _]. subst.
    intros Heq. apply Hin. left. symmetry. exact Heq.
  - rewrite IH1 by assumption. apply IH2.
    apply (Permutation_NoDup (Permutation_map order H1) Hnd).
Qed.





(** X12. [simulation] does not depend on the order of the rows of its two
    frames, as long as the [order] keys are distinct within each. *)
Theorem simulation_ignores_row_order (rand : nat -> R) (fuel : nat)
    (pitchers_df pitchers_df' hitters_df hitters_df' : list Row)
    (using_opener : bool) (sample_size rng0 : nat) :
  Permutation pitchers_df pitchers_df' ->
  Permutation hitters_df hitters_df' ->
  NoDup (map order pitchers_df) -> NoDup (map order hitters_df) ->
  simulation rand fuel pitchers_df hitters_df using_opener sample_size rng0 =
  simulation rand fuel pitchers_df' hitters_df' using_opener sample_size rng0.
Proof.
  intros Hp Hh Np Nh. unfold simulation, simulation_locals.
  rewrite (sort_values_permutation _ _ Hp Np),
          (sort_values_permutation _ _ Hh Nh).
  reflexivity.
Qed.

Lemma simulation_ignores_row_order_witness :
  simulation (always 0) 27 scenario_pitchers lineup_a true 1 0 =
  simulation (always 0) 27 (rev scenario_pitchers) (rev lineup_a) true 1 0.
Proof.
  apply (simulation_ignores_row_order (always 0) 27 scenario_pitchers
           (rev scenario_pitchers) lineup_a (rev lineup_a) true 1 0).
  - apply Permutation_rev.
  - apply Permutation_rev.
  - cbn. repeat constructor; cbn; intuition discriminate.
  - cbn. repeat constructor; cbn; intuition discriminate.
Defined.
